(** * URL shortener: the handlers of [app/main.py] over a model of the
    [url_map] table

    The four request handlers of [src/app/main.py] ([create_short_url],
    [redirect_to_url], [get_stats], [deactivate_url]) are embedded as
    functions in a small state-and-exception monad.  The state is the
    [World] a handler runs in: the PostgreSQL table [url_map] with its
    [SERIAL] sequence, the statements of other requests that the database
    executes while the handler is suspended at an [await], the draws that
    [random.choice] will return, and the wall clock read by
    [datetime.utcnow]. *)

From Stdlib Require Import List ZArith Lia Bool Arith String Ascii.
From Stdlib Require Import Permutation Sorted.
Import ListNotations.

Open Scope string_scope.
Open Scope Z_scope.

(** ** The table [url_map] (main.py, lines 81-92) *)

Module url_map.

(** One row of
    [url_map (id SERIAL PRIMARY KEY, short_url VARCHAR(255) UNIQUE NOT NULL,
              original_url TEXT NOT NULL, created_at TIMESTAMP,
              visits INTEGER DEFAULT 0, is_active BOOLEAN DEFAULT TRUE)].
    [created_at] is a timestamp counted in microseconds. *)
Record row := mk {
  id : Z;
  short_url : string;
  original_url : string;
  created_at : Z;
  visits : Z;
  is_active : bool
}.

Definition set_visits (v : Z) (r : row) : row :=
  mk (id r) (short_url r) (original_url r) (created_at r) v (is_active r).

Definition set_is_active (b : bool) (r : row) : row :=
  mk (id r) (short_url r) (original_url r) (created_at r) (visits r) b.

End url_map.

Definition Row : Type := url_map.row.

(** The stored relation: the rows in the order in which they were inserted
    (no handler deletes a row), and the last value handed out by the
    sequence behind [id SERIAL]. *)
Record Store := mkStore {
  rows : list Row;
  url_map_id_seq : Z
}.

Definition empty_store : Store := mkStore [] 0.

(** Errors the database reports for the statements used here. *)
Inductive pg_error :=
| UniqueViolationError
| StringDataRightTruncationError
| NumericValueOutOfRangeError
| SequenceGeneratorLimitExceededError
| CharacterNotInRepertoireError.

(** Largest value of an [INTEGER] column and of a [SERIAL] sequence. *)
Definition INT4_MAX : Z := 2147483647.
Definition INT4_MIN : Z := -2147483648.

Definition in_int4 (z : Z) : bool := (INT4_MIN <=? z) && (z <=? INT4_MAX).

(** Largest value of a [bigint], the type of the arguments of [OFFSET] and
    [LIMIT]. *)
Definition INT8_MAX : Z := 9223372036854775807.

(** A [text] value cannot hold the character NUL: the database refuses a
    parameter that contains it. *)
Fixpoint has_nul (s : string) : bool :=
  match s with
  | EmptyString => false
  | String c s' => Ascii.eqb c Ascii.zero || has_nul s'
  end.

Fixpoint all_spaces (s : string) : bool :=
  match s with
  | EmptyString => true
  | String c s' => Ascii.eqb c " "%char && all_spaces s'
  end.

(** Assignment to a [VARCHAR(n)] column: a longer value is an error unless
    the excess characters are all spaces, in which case it is cut to [n]. *)
Definition varchar (n : nat) (s : string) : option string :=
  if (String.length s <=? n)%nat then Some s
  else if all_spaces (substring n (String.length s - n) s)
       then Some (substring 0 n s)
       else None.

Definition has_short_url (code : string) (r : Row) : bool :=
  String.eqb (url_map.short_url r) code.

(** [SELECT * FROM url_map WHERE short_url = $1], read with [fetchrow]:
    the first row of the result, or [None].  No stored [short_url]
    contains NUL, so a code that does is one the lookup finds in no row:
    for it the database answers with its refusal of the parameter. *)
Definition select_by_short_url (code : string) (st : Store)
  : (pg_error + option Row) * Store :=
  (match find (has_short_url code) (rows st) with
   | Some r => inr (Some r)
   | None =>
       if has_nul code then inl CharacterNotInRepertoireError else inr None
   end, st).

(** asyncpg prepares each statement once per connection.  The server
    plans the first executions of a prepared statement for the values of
    their parameters, and may afterwards keep one plan for all values.
    Which of the two an execution gets depends on what the connection
    has executed before, which the handlers do not see. *)
Inductive plan := CustomPlan | GenericPlan.

(** [INSERT INTO url_map (short_url, original_url, created_at, visits,
    is_active) VALUES ($1, $2, $3, $4, $5) RETURNING ...].  A code with a
    NUL is refused when the parameters are bound.  The value of [id] is
    the next one of the sequence; a sequence value that was handed out is
    not given back when the statement fails afterwards.  In a plan made
    for the parameter values the length check of [VARCHAR(255)] is done
    while planning, before the sequence is advanced; in a plan kept for
    all values it is done when the row is formed, [id] first, so that the
    sequence has been advanced, or has been found used up, before a code
    that is too long is refused. *)
Definition insert_url_map_on (p : plan) (code url : string) (created : Z)
    (v : Z) (active : bool) (st : Store) : (pg_error + Row) * Store :=
  if has_nul code then (inl CharacterNotInRepertoireError, st) else
  match p with
  | CustomPlan =>
      match varchar 255 code with
      | None => (inl StringDataRightTruncationError, st)
      | Some c =>
          if negb (in_int4 v) then (inl NumericValueOutOfRangeError, st)
          else
            let next := url_map_id_seq st + 1 in
            if INT4_MAX <? next
            then (inl SequenceGeneratorLimitExceededError, st)
            else if existsb (has_short_url c) (rows st)
            then (inl UniqueViolationError, mkStore (rows st) next)
            else
              let r := url_map.mk next c url created v active in
              (inr r, mkStore (rows st ++ [r]) next)
      end
  | GenericPlan =>
      if negb (in_int4 v) then (inl NumericValueOutOfRangeError, st)
      else
        let next := url_map_id_seq st + 1 in
        if INT4_MAX <? next
        then (inl SequenceGeneratorLimitExceededError, st)
        else
          match varchar 255 code with
          | None =>
              (inl StringDataRightTruncationError, mkStore (rows st) next)
          | Some c =>
              if existsb (has_short_url c) (rows st)
              then (inl UniqueViolationError, mkStore (rows st) next)
              else
                let r := url_map.mk next c url created v active in
                (inr r, mkStore (rows st ++ [r]) next)
          end
  end.

(** The [INSERT] on a connection that has not yet settled on one plan. *)
Definition insert_url_map : string -> string -> Z -> Z -> bool -> Store
                            -> (pg_error + Row) * Store :=
  insert_url_map_on CustomPlan.

Definition bump_visits (code : string) (r : Row) : Row :=
  if has_short_url code r then url_map.set_visits (url_map.visits r + 1) r
  else r.

(** [UPDATE url_map SET visits = visits + 1 WHERE short_url = $1]: the new
    value is computed from the stored one; an [INTEGER] that would leave
    its range aborts the statement. *)
Definition update_visits (code : string) (st : Store)
  : (pg_error + unit) * Store :=
  if existsb (fun r => has_short_url code r
                       && (INT4_MAX <=? url_map.visits r)) (rows st)
  then (inl NumericValueOutOfRangeError, st)
  else (inr tt, mkStore (map (bump_visits code) (rows st)) (url_map_id_seq st)).

Definition deactivate_row (code : string) (r : Row) : Row :=
  if has_short_url code r then url_map.set_is_active false r else r.

(** [UPDATE url_map SET is_active = FALSE WHERE short_url = $1 RETURNING *],
    read with [fetchrow]: the first updated row, or [None]. *)
Definition update_is_active_false (code : string) (st : Store)
  : option Row * Store :=
  let rows' := map (deactivate_row code) (rows st) in
  (find (has_short_url code) rows', mkStore rows' (url_map_id_seq st)).

Definition offset_limit (skip limit : Z) (l : list Row) : list Row :=
  firstn (Z.to_nat limit) (skipn (Z.to_nat skip) l).

(** [SELECT * FROM url_map ORDER BY created_at DESC OFFSET $1 LIMIT $2].
    The statement names [created_at] as its only sort key, so the order
    among rows with the same [created_at] is the database's choice;
    [order_by] is the ordering it produced for this query. *)
Definition select_page (order_by : list Row -> list Row) (skip limit : Z)
    (st : Store) : list Row * Store :=
  (offset_limit skip limit (order_by (rows st)), st).

(** [SELECT COUNT( * ) FROM url_map] *)
Definition select_count (st : Store) : Z * Store :=
  (Z.of_nat (List.length (rows st)), st).

Definition sum_visits (l : list Row) : Z :=
  fold_right (fun r acc => url_map.visits r + acc) 0 l.

(** [SELECT SUM(visits) FROM url_map]: NULL over an empty table. *)
Definition select_sum_visits (st : Store) : option Z * Store :=
  (match rows st with [] => None | _ => Some (sum_visits (rows st)) end, st).

(** What [ORDER BY created_at DESC] promises about its result. *)
Definition newest_first (a b : Row) : Prop :=
  url_map.created_at b <= url_map.created_at a.

Definition orders_by_created_at_desc (order_by : list Row -> list Row) : Prop :=
  forall l, Permutation l (order_by l) /\ StronglySorted newest_first (order_by l).

(** One ordering that meets it: insertion sort, which keeps rows with the
    same [created_at] in the order of its input. *)
Fixpoint insert_desc (r : Row) (l : list Row) : list Row :=
  match l with
  | [] => [r]
  | x :: l' =>
      if url_map.created_at x <=? url_map.created_at r
      then r :: x :: l'
      else x :: insert_desc r l'
  end.

Definition stable_desc (l : list Row) : list Row :=
  fold_right insert_desc [] l.

(** ** The world a handler runs in *)

(** [others] lists what the database executes on behalf of other requests
    each time this handler is suspended at an [await conn...]: the head is
    applied before the handler's next statement.  An empty list is a
    handler running alone.  [rng] is the sequence of values the random
    generator will produce and [drawn] how many were consumed; [utc] is
    the clock. *)
Record World := mkWorld {
  db : Store;
  others : list (Store -> Store);
  rng : nat -> nat;
  drawn : nat;
  utc : Z
}.

Definition set_db (st : Store) (w : World) : World :=
  mkWorld st (others w) (rng w) (drawn w) (utc w).

(** The world after the statements scheduled before the handler's next one
    have run. *)
Definition yield (w : World) : World :=
  match others w with
  | [] => w
  | f :: rest => mkWorld (f (db w)) rest (rng w) (drawn w) (utc w)
  end.

Definition alone (st : Store) (random : nat -> nat) (now : Z) : World :=
  mkWorld st [] random 0%nat now.

(** Exceptions that leave a handler.  [HTTPException] is the one the
    handlers raise themselves; [RequestValidationError] is FastAPI's
    answer to a query parameter outside its [Query(ge=..., le=...)] bounds;
    the others are raised by asyncpg and by the interpreter and are not
    caught anywhere in main.py ([DataError] is asyncpg refusing an
    argument it cannot encode for the type of its parameter). *)
Inductive exn :=
| HTTPException (status_code : Z) (detail : string)
| RequestValidationError
| PostgresError (e : pg_error)
| TypeError
| IndexError
| DataError.

(** A handler returns, raises, or is still inside [while True] when the
    bound [fuel] on the number of iterations examined is used up. *)
Inductive outcome (A : Type) :=
| Return (a : A)
| Raise (e : exn)
| OutOfFuel.

Arguments Return {A} a.
Arguments Raise {A} e.
Arguments OutOfFuel {A}.

Definition M (A : Type) : Type := World -> outcome A * World.

Definition ret {A} (a : A) : M A := fun w => (Return a, w).

Definition raise {A} (e : exn) : M A := fun w => (Raise e, w).

Definition out_of_fuel {A} : M A := fun w => (OutOfFuel, w).

Definition bind {A B} (m : M A) (k : A -> M B) : M B :=
  fun w =>
    match m w with
    | (Return a, w') => k a w'
    | (Raise e, w') => (Raise e, w')
    | (OutOfFuel, w') => (OutOfFuel, w')
    end.

Declare Scope handler_scope.
Delimit Scope handler_scope with handler.
Notation "x <- m ;; k" := (bind m (fun x => k))
  (at level 100, m at next level, right associativity) : handler_scope.
Open Scope handler_scope.

(** [await conn.fetchrow(...)] and the like: the handler is suspended, the
    database runs what was scheduled before, then the statement. *)
Definition await {A} (stmt : Store -> A * Store) : M A :=
  fun w =>
    let w1 := yield w in
    let (a, st) := stmt (db w1) in
    (Return a, set_db st w1).

(** The same for a statement the database may reject: asyncpg raises. *)
Definition await_pg {A} (stmt : Store -> (pg_error + A) * Store) : M A :=
  r <- await stmt ;;
  match r with
  | inl e => raise (PostgresError e)
  | inr a => ret a
  end.

(** [datetime.utcnow()] *)
Definition utcnow : M Z := fun w => (Return (utc w), w).

(** [random.choice(seq)]: [seq[i]] for the next random [i] below
    [len(seq)]; [IndexError] on an empty sequence. *)
Definition random_choice (seq : string) : M ascii :=
  fun w =>
    match String.get (rng w (drawn w) mod String.length seq)%nat seq with
    | Some c => (Return c, mkWorld (db w) (others w) (rng w) (S (drawn w)) (utc w))
    | None => (Raise IndexError, w)
    end.

(** ** main.py *)

(** [string.ascii_letters] and [string.digits] *)
Definition ascii_letters : string :=
  "abcdefghijklmnopqrstuvwxyzABCDEFGHIJKLMNOPQRSTUVWXYZ".
Definition digits : string := "0123456789".

Module URLCreate.
(** [url] has passed the [HttpUrl] validation; [str(url_data.url)] is
    the string kept here. *)
Record t := mk {
  url : string;
  custom_path : option string
}.
End URLCreate.

Module URLResponse.
Record t := mk {
  short_url : string;
  original_url : string;
  created_at : Z;
  visits : Z
}.
End URLResponse.

Module URLStats.
Record t := mk {
  urls : list URLResponse.t;
  total_urls : Z;
  total_visits : Z
}.
End URLStats.

(** [return { "short_url": row["short_url"], ... }] *)
Definition to_response (r : Row) : URLResponse.t :=
  URLResponse.mk (url_map.short_url r) (url_map.original_url r)
                 (url_map.created_at r) (url_map.visits r).

(** The body of a [RedirectResponse]. *)
Record RedirectResponse := mkRedirect {
  location : string;
  status_code : Z
}.

Definition HTTP_307_TEMPORARY_REDIRECT : Z := 307.

(** Truth value of an [Optional[str]]: [None] and the empty string are
    false. *)
Definition truthy (o : option string) : bool :=
  match o with
  | None => false
  | Some s => negb (String.eqb s "")
  end.

Definition chars : string := ascii_letters ++ digits.

(** [''.join(random.choice(chars) for _ in range(length))] *)
Fixpoint join_choices (length : nat) : M string :=
  match length with
  | O => ret ""
  | S n =>
      c <- random_choice chars ;;
      rest <- join_choices n ;;
      ret (String c rest)
  end.

Definition generate_short_url (length : nat) : M string :=
  join_choices length.

(** Lines 110-116: [while True: short_url = generate_short_url(); ...;
    if not existing_url: break]. *)
Fixpoint generate_unique (fuel : nat) : M string :=
  match fuel with
  | O => out_of_fuel
  | S fuel' =>
      short_url <- generate_short_url 6 ;;
      existing_url <- await_pg (select_by_short_url short_url) ;;
      match existing_url with
      | None => ret short_url
      | Some _ => generate_unique fuel'
      end
  end.

(** Lines 100-116: the code the new row will carry. *)
Definition choose_short_url (fuel : nat) (url_data : URLCreate.t) : M string :=
  if truthy (URLCreate.custom_path url_data) then
    let short_url := match URLCreate.custom_path url_data with
                     | Some s => s
                     | None => ""
                     end in
    existing_url <- await_pg (select_by_short_url short_url) ;;
    match existing_url with
    | Some _ => raise (HTTPException 400 "Custom short URL already in use")
    | None => ret short_url
    end
  else generate_unique fuel.

(** Lines 118-135: the insert and the response. *)
Definition insert_mapping_on (p : plan) (short_url : string)
    (url_data : URLCreate.t) : M URLResponse.t :=
  created_at <- utcnow ;;
  db_url <- await_pg (insert_url_map_on p short_url (URLCreate.url url_data)
                                        created_at 0 true) ;;
  ret (to_response db_url).

Definition insert_mapping : string -> URLCreate.t -> M URLResponse.t :=
  insert_mapping_on CustomPlan.

(** [create_short_url], lines 95-135, with the plan its [INSERT] is
    executed under. *)
Definition create_short_url_on (p : plan) (fuel : nat)
    (url_data : URLCreate.t) : M URLResponse.t :=
  short_url <- choose_short_url fuel url_data ;;
  insert_mapping_on p short_url url_data.

(** The handler on a connection that has not yet settled on one plan.
    The plan makes a difference only to a request whose custom code is too
    long for the column. *)
Definition create_short_url : nat -> URLCreate.t -> M URLResponse.t :=
  create_short_url_on CustomPlan.

Definition redirect_to_url (short_url : string) : M RedirectResponse :=
  db_url <- await_pg (select_by_short_url short_url) ;;
  match db_url with
  | None => raise (HTTPException 404 "URL not found")
  | Some r =>
      if negb (url_map.is_active r)
      then raise (HTTPException 404 "URL not found")
      else
        _ <- await_pg (update_visits short_url) ;;
        ret (mkRedirect (url_map.original_url r) HTTP_307_TEMPORARY_REDIRECT)
  end.

(** [skip: int = Query(0, ge=0)], [limit: int = Query(10, ge=1, le=100)].
    [skip] is a Python [int] of any size; asyncpg encodes the argument of
    [OFFSET] as a [bigint] and raises [DataError] for one that does not
    fit, before the statement reaches the database. *)
Definition get_stats (order_by : list Row -> list Row) (skip limit : Z)
  : M URLStats.t :=
  if negb ((0 <=? skip) && (1 <=? limit) && (limit <=? 100))
  then raise RequestValidationError
  else if INT8_MAX <? skip then raise DataError
  else
    urls <- await (select_page order_by skip limit) ;;
    total_urls <- await select_count ;;
    total_visits_result <- await select_sum_visits ;;
    let total_visits := match total_visits_result with
                        | Some v => v
                        | None => 0
                        end in
    let url_list := map to_response urls in
    ret (URLStats.mk url_list total_urls total_visits).

Definition deactivate_url (short_url : string) : M URLResponse.t :=
  db_url <- await_pg (select_by_short_url short_url) ;;
  match db_url with
  | None => raise (HTTPException 404 "URL not found")
  | Some _ =>
      updated_url <- await (update_is_active_false short_url) ;;
      match updated_url with
      | None => raise TypeError
      | Some r => ret (to_response r)
      end
  end.

(** ** Requests served one after the other *)

(** A request together with what its environment decides for it: the
    draws and the clock of a creation, the ordering the database uses for
    a listing. *)
Inductive request :=
| CreateMapping (url_data : URLCreate.t) (fuel : nat) (random : nat -> nat)
                (now : Z)
| ResolveAndCount (code : string)
| Deactivate (code : string)
| ListMappings (order_by : list Row -> list Row) (skip limit : Z).

Definition quiet (st : Store) : World := alone st (fun _ => 0%nat) 0.

(** The store a request leaves behind when no other request runs during
    it. *)
Definition serve (q : request) (st : Store) : Store :=
  match q with
  | CreateMapping url_data fuel random now =>
      db (snd (create_short_url fuel url_data (alone st random now)))
  | ResolveAndCount code => db (snd (redirect_to_url code (quiet st)))
  | Deactivate code => db (snd (deactivate_url code (quiet st)))
  | ListMappings order_by skip limit =>
      db (snd (get_stats order_by skip limit (quiet st)))
  end.

Definition serve_all (qs : list request) (st : Store) : Store :=
  fold_left (fun s q => serve q s) qs st.

(** The stores the service can be in: the empty table of a fresh database
    and whatever requests make of it. *)
Inductive reachable : Store -> Prop :=
| reachable_empty : reachable empty_store
| reachable_serve q st : reachable st -> reachable (serve q st).

(** ** Vocabulary of the statements *)

(** The world after [n] more draws. *)
Definition advance (n : nat) (w : World) : World :=
  mkWorld (db w) (others w) (rng w) (drawn w + n) (utc w).

(** The character [random.choice(seq)] returns for the draw [k]. *)
Definition choice_of (seq : string) (k : nat) : ascii :=
  match String.get (k mod String.length seq) seq with
  | Some c => c
  | None => Ascii.zero
  end.

(** The string [generate_short_url(n)] builds from the draws
    [random from], [random (from + 1)], ... *)
Fixpoint code_from (random : nat -> nat) (from n : nat) : string :=
  match n with
  | O => ""
  | S n' => String (choice_of chars (random from)) (code_from random (S from) n')
  end.

(** The [k]-th candidate of the loop of [create_short_url] when the draws
    are read from the start of [random]. *)
Definition candidate (random : nat -> nat) (k : nat) : string :=
  code_from random (6 * k) 6.

Definition taken (st : Store) (code : string) : Prop :=
  find (has_short_url code) (rows st) <> None.

Definition free (st : Store) (code : string) : Prop :=
  find (has_short_url code) (rows st) = None.

(** The [UNIQUE] constraint on [short_url]. *)
Definition unique_short_url (st : Store) : Prop :=
  NoDup (map url_map.short_url (rows st)).

Definition in_chars (c : ascii) : Prop := In c (list_ascii_of_string chars).

(** Letters and digits, by character code. *)
Definition is_alnum (c : ascii) : bool :=
  let n := nat_of_ascii c in
  ((48 <=? n) && (n <=? 57) || (65 <=? n) && (n <=? 90)
   || (97 <=? n) && (n <=? 122))%nat.

(** A request changed [before] into [after] without deleting a mapping,
    renaming one, or making an inactive one active again: [after] is one
    row for each row of [before], in the same order, followed by the rows
    created since. *)
Definition flag_kept_down (r r' : Row) : Prop :=
  url_map.id r' = url_map.id r
  /\ url_map.short_url r' = url_map.short_url r
  /\ (url_map.is_active r = false -> url_map.is_active r' = false).

Definition flags_monotone (before after : list Row) : Prop :=
  exists kept created : list Row,
    after = (kept ++ created)%list /\ Forall2 flag_kept_down before kept.

Definition NotFound : exn := HTTPException 404 "URL not found".
Definition CodeAlreadyInUse : exn :=
  HTTPException 400 "Custom short URL already in use".

(** What one request served alone can have done to the rows. *)
Inductive effect (st st' : Store) : Prop :=
| effect_none :
    rows st' = rows st -> effect st st'
| effect_insert r :
    url_map.short_url r <> "" ->
    ~ In (url_map.short_url r) (map url_map.short_url (rows st)) ->
    url_map.is_active r = true ->
    rows st' = (rows st ++ [r])%list ->
    has_nul (url_map.short_url r) = false ->
    effect st st'
| effect_visit code r :
    find (has_short_url code) (rows st) = Some r ->
    url_map.is_active r = true ->
    rows st' = map (bump_visits code) (rows st) ->
    effect st st'
| effect_deactivate code :
    rows st' = map (deactivate_row code) (rows st) ->
    effect st st'.

(** ** Scenarios *)

Definition example_url : string := "https://example.com/a".

Definition zeros : nat -> nat := fun _ => 0%nat.

(** A store in which ["promo1"] was created and then deactivated. *)
Definition promo_store : Store :=
  serve (Deactivate "promo1")
    (serve (CreateMapping (URLCreate.mk example_url (Some "promo1")) 0 zeros 1000)
       empty_store).

Definition promo_row : Row :=
  url_map.mk 1 "promo1" example_url 1000 0 false.

(** The code of the request [GET /%00]: one character, NUL. *)
Definition nul_code : string := String Ascii.zero "".

(** A store holding the code that the draws [zeros] spell. *)
Definition aaaaaa_store : Store :=
  serve (CreateMapping (URLCreate.mk example_url (Some "aaaaaa")) 0 zeros 1000)
    empty_store.

(** Another request inserting [code] while this one is suspended. *)
Definition competitor (code : string) (st : Store) : Store :=
  snd (insert_url_map code "https://example.org/other" 1500 0 true st).

(** A creation with the existence check on an empty table and a competing
    insert of [code] scheduled before this request's own insert. *)
Definition racing_world (code : string) : World :=
  mkWorld empty_store [(fun st => st); competitor code] zeros 0%nat 2000.

(** A store with one active mapping that was visited twice. *)
Definition visited_store : Store :=
  serve (ResolveAndCount "aaaaaa") (serve (ResolveAndCount "aaaaaa") aaaaaa_store).

(** A redirect of ["aaaaaa"] during which another request deactivates the
    code, after the lookup and before the update. *)
Definition deactivating_world : World :=
  mkWorld aaaaaa_store
          [(fun st => st); (fun st => snd (update_is_active_false "aaaaaa" st))]
          zeros 0%nat 3000.

(** A resolution of ["aaaaaa"] during which a whole deactivation of the
    code is served, after the lookup and before the update. *)
Definition in_flight_world : World :=
  mkWorld aaaaaa_store [(fun st => st); serve (Deactivate "aaaaaa")]
          zeros 0%nat 3000.

(** A resolution of ["promo1"] on the store where it is deactivated, with
    another request creating a mapping before its lookup. *)
Definition racing_promo_world : World :=
  mkWorld promo_store [competitor "other1"] zeros 0%nat 3000.

(** Two mappings created at the same instant. *)
Definition tie_store : Store :=
  serve (CreateMapping (URLCreate.mk example_url (Some "second")) 0 zeros 1000)
    (serve (CreateMapping (URLCreate.mk example_url (Some "first")) 0 zeros 1000)
       empty_store).

(** The two mappings of [tie_store] after one resolution of the first. *)
Definition tie_visited_store : Store :=
  serve (ResolveAndCount "first") tie_store.

(** A row no [UPDATE] has touched. *)
Definition as_inserted (r : Row) : bool :=
  (url_map.visits r =? 0) && url_map.is_active r.

(** PostgreSQL writes the new version of an updated row behind the rows
    the table holds and reads the table in the order of these versions.
    While no more than one row has been updated that order is: the rows
    still as inserted, then the updated one. *)
Definition heap_order (l : list Row) : list Row :=
  (filter as_inserted l ++ filter (fun r => negb (as_inserted r)) l)%list.

(** The table read in [heap_order] and sorted on [created_at] without
    moving rows that compare equal. *)
Definition rewritten_last (l : list Row) : list Row :=
  stable_desc (heap_order l).

(** ** What the table keeps *)

(** A row as the handlers write it: a code that is not empty and fits
    [VARCHAR(255)], a counter within [INTEGER] that never went below 0. *)
Definition row_ok (r : Row) : Prop :=
  url_map.short_url r <> ""
  /\ (String.length (url_map.short_url r) <= 255)%nat
  /\ 0 <= url_map.visits r <= INT4_MAX.

(** The table as the handlers leave it: no code twice, every row
    [row_ok], [id] growing along the order of insertion and never beyond
    the value the sequence has reached. *)
Definition store_ok (st : Store) : Prop :=
  unique_short_url st
  /\ Forall row_ok (rows st)
  /\ StronglySorted (fun a b => url_map.id a < url_map.id b) (rows st)
  /\ Forall (fun r => 1 <= url_map.id r <= url_map_id_seq st) (rows st)
  /\ 0 <= url_map_id_seq st <= INT4_MAX.

(** What another request does while this one waits keeps [store_ok]. *)
Definition well_behaved (f : Store -> Store) : Prop :=
  forall st, store_ok st -> store_ok (f st).

Definition guarded (w : World) : Prop :=
  store_ok (db w) /\ Forall well_behaved (others w).

(** The computation [m], started in a guarded world, ends in one, however
    it ends. *)
Definition keeps {A} (m : M A) : Prop :=
  forall w, guarded w -> guarded (snd (m w)).

(** [r'] is the row [r] at a later time: what identifies the mapping and
    where it points is the same, and the counter has not gone down. *)
Definition row_kept (r r' : Row) : Prop :=
  url_map.id r' = url_map.id r
  /\ url_map.short_url r' = url_map.short_url r
  /\ url_map.original_url r' = url_map.original_url r
  /\ url_map.created_at r' = url_map.created_at r
  /\ url_map.visits r <= url_map.visits r'.

(** [after] is [before], row by row and in the same order, each related
    by [R] to what it was, followed by the rows created since. *)
Definition rows_extended (R : Row -> Row -> Prop) (before after : list Row)
  : Prop :=
  exists kept created : list Row,
    after = (kept ++ created)%list /\ Forall2 R before kept.

(** A custom code of 300 letters. *)
Definition long_code : string :=
  concat "" (repeat "abcdefghij" 30).

(** The row [r] with [n] more visits if it carries [code]. *)
Definition add_visits (code : string) (n : Z) (r : Row) : Row :=
  if has_short_url code r then url_map.set_visits (url_map.visits r + n) r
  else r.

(** A store whose only mapping has used up its counter. *)
Definition full_counter_store : Store :=
  mkStore [url_map.mk 1 "aaaaaa" example_url 1000 INT4_MAX true] 1.

(** ** Totals *)

Definition returns {A} (o : outcome A) : bool :=
  match o with
  | Return _ => true
  | _ => false
  end.

(** What [get_stats] reports as [total_urls] and [total_visits] on [st]. *)
Definition total_urls_of (st : Store) : Z := fst (select_count st).

Definition total_visits_of (st : Store) : Z :=
  match fst (select_sum_visits st) with
  | Some v => v
  | None => 0
  end.

(** 1 when the request is a creation that returns, served alone on [st]. *)
Definition mappings_added (q : request) (st : Store) : Z :=
  match q with
  | CreateMapping url_data fuel random now =>
      if returns (fst (create_short_url fuel url_data (alone st random now)))
      then 1 else 0
  | _ => 0
  end.

(** 1 when the request is a resolution that returns, served alone on [st]. *)
Definition visits_added (q : request) (st : Store) : Z :=
  match q with
  | ResolveAndCount code =>
      if returns (fst (redirect_to_url code (quiet st))) then 1 else 0
  | _ => 0
  end.

(** ** Draws *)

(** The first position of [c] in [s]. *)
Fixpoint index_of (c : ascii) (s : string) : nat :=
  match s with
  | EmptyString => 0%nat
  | String a s' => if Ascii.eqb a c then 0%nat else S (index_of c s')
  end.

(** Draws that make [generate_short_url] spell [code]. *)
Fixpoint draws_for (code : string) : nat -> nat :=
  match code with
  | EmptyString => fun _ => 0%nat
  | String c rest =>
      fun i => match i with
               | O => index_of c chars
               | S j => draws_for rest j
               end
  end.

(** ** testing_API.py *)

(** The script talks to the service over HTTP and prints what it gets.
    FastAPI answers 200 with the returned value, the status of an
    [HTTPException], 422 for a rejected query parameter and 500 for any
    other exception; a [RedirectResponse] is answered with its own status
    and its URL in the [Location] header. *)
Module testing_API.

Definition status_of (e : exn) : Z :=
  match e with
  | HTTPException status _ => status
  | RequestValidationError => 422
  | _ => 500
  end.

(** One [print(...)] of the script, with the values it formats. *)
Inductive line :=
| Banner                                  (* ===== URL Shortener API Test ===== *)
| Heading (title : string)                (* === Testing ... === *)
| StatusCode (status : Z)                 (* Status Code: ... *)
| ShortURL (short_url : string)           (* Short URL: BASE_URL/... *)
| OriginalURL (original_url : string)     (* Original URL: ... *)
| Error (e : exn)                         (* Error: response.text *)
| NoShortURL                              (* No short URL to test *)
| RedirectLocation (location : option string)
| TotalURLs (n : Z)
| TotalVisits (n : Z)
| FirstURLs (n : nat)                     (* First len(urls) URLs: *)
| URLLine (short_url original_url : string) (visits : Z).

Definition data : URLCreate.t :=
  URLCreate.mk "https://www.example.com/example" None.

(** [test_create_url()]: the code on a 200, [None] otherwise. *)
Definition test_create_url (fuel : nat) : M (option string * list line) :=
  fun w =>
    match create_short_url fuel data w with
    | (Return result, w') =>
        (Return (Some (URLResponse.short_url result),
                 [Heading "URL Creation"; StatusCode 200;
                  ShortURL (URLResponse.short_url result);
                  OriginalURL (URLResponse.original_url result)]), w')
    | (Raise e, w') =>
        (Return (None, [Heading "URL Creation"; StatusCode (status_of e);
                        Error e]), w')
    | (OutOfFuel, w') => (OutOfFuel, w')
    end.

(** [test_redirect(short_url)], with [allow_redirects=False]. *)
Definition test_redirect (short_url : option string) : M (list line) :=
  if negb (truthy short_url)
  then ret [Heading "URL Redirect"; NoShortURL]
  else
    fun w =>
      match redirect_to_url (match short_url with Some c => c | None => "" end) w with
      | (Return response, w') =>
          (Return [Heading "URL Redirect"; StatusCode (status_code response);
                   RedirectLocation (Some (location response))], w')
      | (Raise e, w') =>
          (Return [Heading "URL Redirect"; StatusCode (status_of e);
                   RedirectLocation None], w')
      | (OutOfFuel, w') => (OutOfFuel, w')
      end.

Definition url_line (u : URLResponse.t) : line :=
  URLLine (URLResponse.short_url u) (URLResponse.original_url u)
          (URLResponse.visits u).

(** [test_stats()]: [GET /stats/] with the defaults [skip=0], [limit=10]. *)
Definition test_stats (order_by : list Row -> list Row) : M (list line) :=
  fun w =>
    match get_stats order_by 0 10 w with
    | (Return result, w') =>
        (Return ([Heading "URL Stats"; StatusCode 200;
                  TotalURLs (URLStats.total_urls result);
                  TotalVisits (URLStats.total_visits result);
                  FirstURLs (List.length (URLStats.urls result))]
                 ++ map url_line (URLStats.urls result))%list, w')
    | (Raise e, w') =>
        (Return [Heading "URL Stats"; StatusCode (status_of e)], w')
    | (OutOfFuel, w') => (OutOfFuel, w')
    end.

(** The [if __name__ == "__main__":] block. *)
Definition main (fuel : nat) (order_by : list Row -> list Row)
  : M (list line) :=
  created <- test_create_url fuel ;;
  redirected <- test_redirect (fst created) ;;
  stats <- test_stats order_by ;;
  ret ((Banner :: snd created) ++ redirected ++ stats)%list.

End testing_API.

(** A store whose sequence has handed out its last value. *)
Definition exhausted_store : Store := mkStore [] INT4_MAX.

(** * Properties *)

(** ** The monad *)

Lemma yield_alone w : others w = [] -> yield w = w.
Proof. unfold yield. intros ->. reflexivity. Qed.

Lemma await_run {A} (stmt : Store -> A * Store) w :
  await stmt w = (Return (fst (stmt (db (yield w)))),
                  set_db (snd (stmt (db (yield w)))) (yield w)).
Proof. unfold await. destruct (stmt (db (yield w))); reflexivity. Qed.

Lemma set_db_same w : set_db (db w) w = w.
Proof. destruct w; reflexivity. Qed.

Lemma await_select code w :
  await_pg (select_by_short_url code) w
  = match find (has_short_url code) (rows (db (yield w))) with
    | Some r => (Return (Some r), yield w)
    | None =>
        if has_nul code
        then (Raise (PostgresError CharacterNotInRepertoireError), yield w)
        else (Return None, yield w)
    end.
Proof.
  unfold await_pg, bind. rewrite await_run.
  unfold select_by_short_url. cbn [fst snd]. rewrite set_db_same.
  destruct (find _ _); [reflexivity|]. now destruct (has_nul code).
Qed.

Lemma bind_select {B} code (k : option Row -> M B) w :
  bind (await_pg (select_by_short_url code)) k w
  = match find (has_short_url code) (rows (db (yield w))) with
    | Some r => k (Some r) (yield w)
    | None =>
        if has_nul code
        then (Raise (PostgresError CharacterNotInRepertoireError), yield w)
        else k None (yield w)
    end.
Proof.
  unfold bind at 1. rewrite await_select.
  destruct (find _ _); [reflexivity|]. now destruct (has_nul code).
Qed.

Lemma bind_return {A B} (m : M A) (k : A -> M B) w a w' :
  m w = (Return a, w') -> bind m k w = k a w'.
Proof. unfold bind. now intros ->. Qed.

Lemma bind_raise {A B} (m : M A) (k : A -> M B) w e w' :
  m w = (Raise e, w') -> bind m k w = (Raise e, w').
Proof. unfold bind. now intros ->. Qed.

Lemma bind_out_of_fuel {A B} (m : M A) (k : A -> M B) w w' :
  m w = (OutOfFuel, w') -> bind m k w = (OutOfFuel, w').
Proof. unfold bind. now intros ->. Qed.

(** ** Strings *)

Lemma get_some s : forall i, (i < String.length s)%nat ->
  exists c, String.get i s = Some c.
Proof.
  induction s as [|a s IH]; intros i Hi; simpl in *.
  - lia.
  - destruct i as [|i]; [now exists a|]. apply IH. lia.
Qed.

Lemma get_in s : forall i c, String.get i s = Some c ->
  In c (list_ascii_of_string s).
Proof.
  induction s as [|a s IH]; intros i c H; simpl in *.
  - discriminate.
  - destruct i as [|i]; [left; congruence | right; eauto].
Qed.

Lemma chars_length : String.length chars = 62%nat.
Proof. reflexivity. Qed.

Lemma choice_of_in_chars k : in_chars (choice_of chars k).
Proof.
  unfold in_chars, choice_of.
  destruct (get_some chars (k mod String.length chars)%nat) as [c Hc].
  - rewrite chars_length. apply Nat.mod_upper_bound. discriminate.
  - rewrite Hc. eapply get_in; eauto.
Qed.

Lemma random_choice_chars w :
  random_choice chars w = (Return (choice_of chars (rng w (drawn w))), advance 1 w).
Proof.
  unfold random_choice, choice_of.
  destruct (get_some chars (rng w (drawn w) mod String.length chars)%nat) as [c Hc].
  - rewrite chars_length. apply Nat.mod_upper_bound. discriminate.
  - rewrite Hc. unfold advance. now rewrite Nat.add_1_r.
Qed.

Lemma advance_advance n m w : advance n (advance m w) = advance (m + n) w.
Proof. unfold advance; simpl. f_equal. lia. Qed.

Lemma advance_0 w : advance 0 w = w.
Proof. unfold advance. rewrite Nat.add_0_r. now destruct w. Qed.

Lemma join_choices_run n : forall w,
  join_choices n w = (Return (code_from (rng w) (drawn w) n), advance n w).
Proof.
  induction n as [|n IH]; intros w; simpl.
  - unfold ret. now rewrite advance_0.
  - erewrite bind_return by apply random_choice_chars.
    erewrite bind_return by apply IH.
    unfold ret. rewrite advance_advance. simpl.
    now rewrite Nat.add_1_r.
Qed.

Lemma code_from_length random n : forall from,
  String.length (code_from random from n) = n.
Proof. induction n; intros; simpl; auto. Qed.

Lemma code_from_in_chars random n : forall from,
  Forall in_chars (list_ascii_of_string (code_from random from n)).
Proof.
  induction n; intros; simpl; constructor; auto using choice_of_in_chars.
Qed.

Lemma in_chars_not_nul c : in_chars c -> Ascii.eqb c Ascii.zero = false.
Proof.
  unfold in_chars. cbn. intros H.
  repeat (destruct H as [<-|H]; [reflexivity|]). contradiction.
Qed.

Lemma has_nul_in_chars s :
  Forall in_chars (list_ascii_of_string s) -> has_nul s = false.
Proof.
  induction s as [|c s IH]; cbn; intros H; [reflexivity|].
  apply Forall_cons_iff in H as [Hc Hs].
  now rewrite (in_chars_not_nul c Hc), IH.
Qed.

Lemma has_nul_code_from random from n :
  has_nul (code_from random from n) = false.
Proof. apply has_nul_in_chars, code_from_in_chars. Qed.

(** ** The loop of the random path *)

Lemma generate_unique_step fuel w :
  others w = [] ->
  generate_unique (S fuel) w
  = match find (has_short_url (code_from (rng w) (drawn w) 6)) (rows (db w)) with
    | None => (Return (code_from (rng w) (drawn w) 6), advance 6 w)
    | Some _ => generate_unique fuel (advance 6 w)
    end.
Proof.
  intros Hq. cbn [generate_unique]. unfold generate_short_url.
  erewrite bind_return by apply join_choices_run.
  rewrite bind_select, has_nul_code_from.
  rewrite yield_alone by exact Hq. cbn [advance db].
  destruct (find _ _); reflexivity.
Qed.

Lemma generate_unique_first_free k : forall fuel w j0,
  others w = [] -> drawn w = (6 * j0)%nat ->
  (forall j, (j < k)%nat -> taken (db w) (candidate (rng w) (j0 + j))) ->
  free (db w) (candidate (rng w) (j0 + k)) ->
  (k < fuel)%nat ->
  generate_unique fuel w
  = (Return (candidate (rng w) (j0 + k)), advance (6 * S k) w).
Proof.
  induction k as [|k IH]; intros fuel w j0 Hq Hd Htaken Hfree Hfuel;
    (destruct fuel as [|fuel]; [lia|]); rewrite generate_unique_step by exact Hq.
  - unfold free, candidate in Hfree. rewrite Nat.add_0_r, <- Hd in Hfree.
    rewrite Hfree. unfold candidate. now rewrite Nat.add_0_r, <- Hd.
  - assert (H0 := Htaken 0%nat (Nat.lt_0_succ k)).
    unfold taken, candidate in H0. rewrite Nat.add_0_r, <- Hd in H0.
    destruct (find _ _); [|congruence].
    rewrite (IH fuel (advance 6 w) (S j0)); cbn [advance others db rng drawn];
      try assumption; try lia.
    + rewrite advance_advance.
      replace (S j0 + k)%nat with (j0 + S k)%nat by lia.
      now replace (6 + 6 * S k)%nat with (6 * S (S k))%nat by lia.
    + intros j Hj. replace (S j0 + j)%nat with (j0 + S j)%nat by lia.
      apply Htaken. lia.
    + now replace (S j0 + k)%nat with (j0 + S k)%nat by lia.
Qed.

Lemma generate_unique_still_running fuel : forall w j0,
  others w = [] -> drawn w = (6 * j0)%nat ->
  (forall j, (j < fuel)%nat -> taken (db w) (candidate (rng w) (j0 + j))) ->
  generate_unique fuel w = (OutOfFuel, advance (6 * fuel) w).
Proof.
  induction fuel as [|fuel IH]; intros w j0 Hq Hd Htaken.
  - cbn. unfold out_of_fuel. now rewrite advance_0.
  - rewrite generate_unique_step by exact Hq.
    assert (H0 := Htaken 0%nat (Nat.lt_0_succ fuel)).
    unfold taken, candidate in H0. rewrite Nat.add_0_r, <- Hd in H0.
    destruct (find _ _); [|congruence].
    rewrite (IH (advance 6 w) (S j0)); cbn [advance others db rng drawn];
      try assumption; try lia.
    + rewrite advance_advance.
      now replace (6 + 6 * fuel)%nat with (6 * S fuel)%nat by lia.
    + intros j Hj. replace (S j0 + j)%nat with (j0 + S j)%nat by lia.
      apply Htaken. lia.
Qed.

(** Whatever the other requests do, a code the loop returns is six
    characters of [chars]. *)
Lemma generate_unique_returns fuel : forall w code w',
  generate_unique fuel w = (Return code, w') ->
  String.length code = 6%nat
  /\ Forall in_chars (list_ascii_of_string code).
Proof.
  induction fuel as [|fuel IH]; intros w code w' H.
  - discriminate.
  - cbn [generate_unique] in H. unfold generate_short_url in H.
    erewrite bind_return in H by apply join_choices_run.
    rewrite bind_select, has_nul_code_from in H.
    destruct (find _ _).
    + eapply IH; eauto.
    + unfold ret in H.
      assert (Hc : code_from (rng w) (drawn w) 6 = code) by congruence.
      rewrite <- Hc.
      split; [apply code_from_length | apply code_from_in_chars].
Qed.

Lemma choose_random_path fuel url_data :
  truthy (URLCreate.custom_path url_data) = false ->
  choose_short_url fuel url_data = generate_unique fuel.
Proof. unfold choose_short_url. now intros ->. Qed.

Lemma choose_custom_path fuel url_data :
  truthy (URLCreate.custom_path url_data) = true ->
  exists code, URLCreate.custom_path url_data = Some code /\ code <> ""
  /\ forall w,
      choose_short_url fuel url_data w
      = match find (has_short_url code) (rows (db (yield w))) with
        | Some _ => (Raise CodeAlreadyInUse, yield w)
        | None =>
            if has_nul code
            then (Raise (PostgresError CharacterNotInRepertoireError), yield w)
            else (Return code, yield w)
        end.
Proof.
  unfold choose_short_url. intros H. rewrite H.
  destruct (URLCreate.custom_path url_data) as [code|]; [|discriminate].
  exists code. split; [reflexivity|]. split.
  - intros ->. discriminate.
  - intros w. rewrite bind_select.
    destruct (find _ _); reflexivity.
Qed.

(** ** The statements *)

Lemma has_short_url_true code r :
  has_short_url code r = true <-> url_map.short_url r = code.
Proof. unfold has_short_url. apply String.eqb_eq. Qed.

Lemma has_short_url_false code r :
  has_short_url code r = false <-> url_map.short_url r <> code.
Proof. unfold has_short_url. apply String.eqb_neq. Qed.

Lemma existsb_has_short_url code l :
  existsb (has_short_url code) l = false <->
  ~ In code (map url_map.short_url l).
Proof.
  induction l as [|r l IH]; simpl.
  - tauto.
  - rewrite orb_false_iff, IH, has_short_url_false. tauto.
Qed.

Lemma find_has_short_url_none code l :
  find (has_short_url code) l = None <-> existsb (has_short_url code) l = false.
Proof.
  induction l as [|r l IH]; simpl; [tauto|].
  destruct (has_short_url code r); simpl; [split; discriminate | exact IH].
Qed.

Lemma find_in code l r :
  find (has_short_url code) l = Some r ->
  In r l /\ url_map.short_url r = code.
Proof.
  intros H. apply find_some in H. now rewrite has_short_url_true in H.
Qed.

Lemma in_taken st r :
  In r (rows st) -> taken st (url_map.short_url r).
Proof.
  unfold taken. intros Hin Hnone.
  eapply find_none in Hnone; eauto.
  apply has_short_url_false in Hnone. congruence.
Qed.

Lemma varchar_nonempty n s c :
  varchar (S n) s = Some c -> s <> "" -> c <> "".
Proof.
  unfold varchar. intros H Hs.
  destruct (String.length s <=? S n)%nat.
  - congruence.
  - destruct (all_spaces _); [|discriminate].
    destruct s as [|a s]; [congruence|].
    cbn [substring] in H. congruence.
Qed.

Lemma varchar_short n s :
  (String.length s <= n)%nat -> varchar n s = Some s.
Proof. unfold varchar. intros H. apply Nat.leb_le in H. now rewrite H. Qed.

Lemma has_nul_substring n : forall s,
  has_nul s = false -> has_nul (substring 0 n s) = false.
Proof.
  induction n as [|n IH]; intros [|c s]; cbn; try reflexivity.
  intros H. apply orb_false_iff in H as [Hc Hs]. now rewrite Hc, IH.
Qed.

Lemma has_nul_varchar n s c :
  varchar n s = Some c -> has_nul s = false -> has_nul c = false.
Proof.
  unfold varchar. destruct (String.length s <=? n)%nat.
  - now intros [= <-].
  - destruct (all_spaces _); [|discriminate].
    intros [= <-]. apply has_nul_substring.
Qed.

(** What a successful [INSERT] did. *)
Lemma insert_url_map_ok code url t v active st r st' :
  insert_url_map code url t v active st = (inr r, st') ->
  exists c,
    varchar 255 code = Some c
    /\ r = url_map.mk (url_map_id_seq st + 1) c url t v active
    /\ rows st' = (rows st ++ [r])%list
    /\ ~ In c (map url_map.short_url (rows st)).
Proof.
  unfold insert_url_map, insert_url_map_on. intros H.
  destruct (has_nul code); [discriminate|].
  destruct (varchar 255 code) as [c|]; [|discriminate].
  destruct (negb (in_int4 v)); [discriminate|].
  destruct (INT4_MAX <? url_map_id_seq st + 1); [discriminate|].
  destruct (existsb (has_short_url c) (rows st)) eqn:E; [discriminate|].
  exists c. inversion H; subst; cbn.
  rewrite existsb_has_short_url in E. auto.
Qed.

(** A rejected [INSERT] leaves the rows as they were. *)
Lemma insert_url_map_rejected code url t v active st e st' :
  insert_url_map code url t v active st = (inl e, st') ->
  rows st' = rows st.
Proof.
  unfold insert_url_map, insert_url_map_on. intros H.
  destruct (has_nul code); [now inversion H|].
  destruct (varchar 255 code) as [c|]; [|now inversion H].
  destruct (negb (in_int4 v)); [now inversion H|].
  destruct (INT4_MAX <? url_map_id_seq st + 1); [now inversion H|].
  destruct (existsb (has_short_url c) (rows st)); now inversion H.
Qed.

Lemma insert_url_map_no_nul code url t v active st r st' :
  insert_url_map code url t v active st = (inr r, st') ->
  has_nul (url_map.short_url r) = false.
Proof.
  intros H. assert (H' := H). unfold insert_url_map, insert_url_map_on in H'.
  destruct (has_nul code) eqn:N; [discriminate|]. clear H'.
  apply insert_url_map_ok in H as (c & Hc & -> & _). cbn.
  eapply has_nul_varchar; eauto.
Qed.

Lemma update_visits_rows code st r st' :
  update_visits code st = (r, st') ->
  rows st' = rows st
  \/ (r = inr tt /\ rows st' = map (bump_visits code) (rows st)).
Proof.
  unfold update_visits. intros H.
  destruct (existsb _ _); inversion H; subst; cbn; auto.
Qed.

Lemma insert_mapping_on_run p code url_data w :
  insert_mapping_on p code url_data w
  = match insert_url_map_on p code (URLCreate.url url_data) (utc w) 0 true
                            (db (yield w)) with
    | (inl e, st') => (Raise (PostgresError e), set_db st' (yield w))
    | (inr r, st') => (Return (to_response r), set_db st' (yield w))
    end.
Proof.
  unfold insert_mapping_on, utcnow, await_pg, bind. rewrite await_run.
  destruct (insert_url_map_on _ _ _ _ _ _ _) as [[e|r] st']; reflexivity.
Qed.

Lemma insert_mapping_run code url_data w :
  insert_mapping code url_data w
  = match insert_url_map code (URLCreate.url url_data) (utc w) 0 true
                         (db (yield w)) with
    | (inl e, st') => (Raise (PostgresError e), set_db st' (yield w))
    | (inr r, st') => (Return (to_response r), set_db st' (yield w))
    end.
Proof. exact (insert_mapping_on_run CustomPlan code url_data w). Qed.

Lemma redirect_to_url_run code w :
  redirect_to_url code w
  = match find (has_short_url code) (rows (db (yield w))) with
    | None =>
        if has_nul code
        then (Raise (PostgresError CharacterNotInRepertoireError), yield w)
        else (Raise NotFound, yield w)
    | Some r =>
        if url_map.is_active r then
          match update_visits code (db (yield (yield w))) with
          | (inl e, st') => (Raise (PostgresError e), set_db st' (yield (yield w)))
          | (inr _, st') =>
              (Return (mkRedirect (url_map.original_url r) 307),
               set_db st' (yield (yield w)))
          end
        else (Raise NotFound, yield w)
    end.
Proof.
  unfold redirect_to_url. rewrite bind_select.
  destruct (find _ _) as [r|]; [|reflexivity].
  destruct (url_map.is_active r); [|reflexivity].
  cbn [negb]. unfold await_pg, bind. rewrite await_run.
  destruct (update_visits _ _) as [[e|u] st']; reflexivity.
Qed.

Lemma deactivate_url_run code w :
  deactivate_url code w
  = match find (has_short_url code) (rows (db (yield w))) with
    | None =>
        if has_nul code
        then (Raise (PostgresError CharacterNotInRepertoireError), yield w)
        else (Raise NotFound, yield w)
    | Some _ =>
        let st := db (yield (yield w)) in
        let rows' := map (deactivate_row code) (rows st) in
        let w' := set_db (mkStore rows' (url_map_id_seq st)) (yield (yield w)) in
        match find (has_short_url code) rows' with
        | None => (Raise TypeError, w')
        | Some r => (Return (to_response r), w')
        end
    end.
Proof.
  unfold deactivate_url. rewrite bind_select.
  destruct (find _ _) as [r|]; [|reflexivity].
  unfold bind. rewrite await_run. cbn.
  destruct (find _ _); reflexivity.
Qed.

Lemma get_stats_run order_by skip limit w :
  0 <= skip <= INT8_MAX -> 1 <= limit <= 100 ->
  get_stats order_by skip limit w
  = (Return (URLStats.mk
               (map to_response
                    (offset_limit skip limit (order_by (rows (db (yield w))))))
               (Z.of_nat (List.length (rows (db (yield (yield w))))))
               (sum_visits (rows (db (yield (yield (yield w))))))),
     yield (yield (yield w))).
Proof.
  intros [Hs Hs8] [Hl1 Hl2]. unfold get_stats.
  apply Z.leb_le in Hs, Hl1, Hl2. rewrite Hs, Hl1, Hl2. cbn [andb negb].
  apply Z.ltb_ge in Hs8. rewrite Hs8.
  unfold bind. rewrite !await_run. cbn. rewrite !set_db_same. unfold ret.
  destruct (rows (db (yield (yield (yield w))))); reflexivity.
Qed.

Lemma get_stats_db order_by skip limit w :
  others w = [] -> snd (get_stats order_by skip limit w) = w.
Proof.
  intros Hq. unfold get_stats.
  destruct (negb _); [reflexivity|].
  destruct (INT8_MAX <? skip); [reflexivity|].
  unfold bind. rewrite !await_run. cbn. rewrite !set_db_same.
  now rewrite !(yield_alone w Hq).
Qed.

(** ** One request served alone *)

Lemma generate_unique_alone fuel : forall w out w',
  others w = [] ->
  generate_unique fuel w = (out, w') ->
  db w' = db w /\ others w' = [] /\ utc w' = utc w.
Proof.
  induction fuel as [|fuel IH]; intros w out w' Hq H.
  - inversion H; subst; auto.
  - rewrite generate_unique_step in H by exact Hq.
    destruct (find _ _).
    + apply IH in H; [|exact Hq]. exact H.
    + inversion H; subst; auto.
Qed.

Lemma choose_short_url_alone fuel url_data w out w' :
  others w = [] ->
  choose_short_url fuel url_data w = (out, w') ->
  db w' = db w /\ others w' = [] /\ utc w' = utc w
  /\ forall code, out = Return code -> code <> "".
Proof.
  intros Hq H.
  destruct (truthy (URLCreate.custom_path url_data)) eqn:T.
  - destruct (choose_custom_path fuel url_data T) as (code & _ & Hne & Hrun).
    rewrite Hrun, yield_alone in H by exact Hq.
    destruct (find _ _); [|destruct (has_nul code)];
      inversion H; subst; repeat split; auto; congruence.
  - rewrite choose_random_path in H by exact T.
    destruct (generate_unique_alone _ _ _ _ Hq H) as (? & ? & ?).
    repeat split; auto.
    intros code ->. apply generate_unique_returns in H as [Hlen _].
    intros ->. discriminate.
Qed.

Lemma create_short_url_on_run p fuel url_data w :
  create_short_url_on p fuel url_data w
  = match choose_short_url fuel url_data w with
    | (Return code, w1) => insert_mapping_on p code url_data w1
    | (Raise e, w1) => (Raise e, w1)
    | (OutOfFuel, w1) => (OutOfFuel, w1)
    end.
Proof. reflexivity. Qed.

Lemma create_short_url_run fuel url_data w :
  create_short_url fuel url_data w
  = match choose_short_url fuel url_data w with
    | (Return code, w1) => insert_mapping code url_data w1
    | (Raise e, w1) => (Raise e, w1)
    | (OutOfFuel, w1) => (OutOfFuel, w1)
    end.
Proof. reflexivity. Qed.

Lemma create_short_url_effect fuel url_data w :
  others w = [] ->
  effect (db w) (db (snd (create_short_url fuel url_data w))).
Proof.
  intros Hq. rewrite create_short_url_run.
  destruct (choose_short_url fuel url_data w) as [out w1] eqn:C.
  destruct (choose_short_url_alone _ _ _ _ _ Hq C) as (Hdb & Hq1 & _ & Hne).
  destruct out as [code|e|]; try (apply effect_none; cbn; congruence).
  rewrite insert_mapping_run, yield_alone by exact Hq1. rewrite Hdb.
  destruct (insert_url_map _ _ _ _ _ _) as [[e|r] st'] eqn:I; cbn.
  - apply effect_none. eapply insert_url_map_rejected; eauto.
  - assert (Hn := insert_url_map_no_nul _ _ _ _ _ _ _ _ I).
    apply insert_url_map_ok in I as (c & Hc & -> & Hrows & Hfresh).
    eapply effect_insert; eauto; cbn; auto.
    eapply (varchar_nonempty 254); eauto.
Qed.

Lemma redirect_to_url_effect code w :
  others w = [] ->
  effect (db w) (db (snd (redirect_to_url code w))).
Proof.
  intros Hq. rewrite redirect_to_url_run, !(yield_alone w Hq).
  destruct (find _ _) as [r|] eqn:F;
    [|destruct (has_nul code); now apply effect_none].
  destruct (url_map.is_active r) eqn:A; [|now apply effect_none].
  destruct (update_visits code (db w)) as [[e|u] st'] eqn:U; cbn;
    apply update_visits_rows in U as [U|[U1 U2]];
    try discriminate; try (now apply effect_none).
  eapply effect_visit; eauto.
Qed.

Lemma deactivate_url_effect code w :
  others w = [] ->
  effect (db w) (db (snd (deactivate_url code w))).
Proof.
  intros Hq. rewrite deactivate_url_run, !(yield_alone w Hq).
  destruct (find _ _) as [r|];
    [|destruct (has_nul code); now apply effect_none].
  cbn. destruct (find _ _); cbn; now apply effect_deactivate with code.
Qed.

Lemma serve_effect q st : effect st (serve q st).
Proof.
  destruct q as [url_data fuel random now|code|code|order_by skip limit]; cbn [serve].
  - apply (create_short_url_effect fuel url_data (alone st random now)).
    reflexivity.
  - apply (redirect_to_url_effect code (quiet st)). reflexivity.
  - apply (deactivate_url_effect code (quiet st)). reflexivity.
  - rewrite get_stats_db by reflexivity. now apply effect_none.
Qed.

Lemma map_short_url_bump code l :
  map url_map.short_url (map (bump_visits code) l) = map url_map.short_url l.
Proof.
  rewrite map_map. apply map_ext. intros r. unfold bump_visits.
  now destruct (has_short_url code r).
Qed.

Lemma map_short_url_deactivate code l :
  map url_map.short_url (map (deactivate_row code) l) = map url_map.short_url l.
Proof.
  rewrite map_map. apply map_ext. intros r. unfold deactivate_row.
  now destruct (has_short_url code r).
Qed.

(** The codes in the table after a request: those before, and perhaps one
    new, non-empty code that was not there. *)
Lemma effect_codes st st' :
  effect st st' ->
  map url_map.short_url (rows st') = map url_map.short_url (rows st)
  \/ exists c, c <> "" /\ ~ In c (map url_map.short_url (rows st))
       /\ map url_map.short_url (rows st')
          = (map url_map.short_url (rows st) ++ [c])%list.
Proof.
  intros [H|r Hne Hfresh _ H _|code r _ _ H|code H]; rewrite H.
  - now left.
  - right. exists (url_map.short_url r). now rewrite map_app.
  - left. apply map_short_url_bump.
  - left. apply map_short_url_deactivate.
Qed.

Lemma reachable_codes st :
  reachable st ->
  unique_short_url st /\ ~ In "" (map url_map.short_url (rows st)).
Proof.
  unfold unique_short_url. induction 1 as [|q st _ [IHu IHn]].
  - split; [constructor | intros []].
  - destruct (effect_codes _ _ (serve_effect q st)) as [E|(c & Hne & Hfresh & E)];
      rewrite E; [now split|].
    split.
    + apply NoDup_app; auto.
      * constructor; [intros []|constructor].
      * intros x Hx [<-|[]]. contradiction.
    + intros Hin. apply in_app_or in Hin as [Hin|[Hin|[]]]; congruence.
Qed.

(** No code the service stores holds a NUL, so in every store it reaches
    a lookup of a code with a NUL is refused. *)
Lemma effect_no_nul st st' :
  effect st st' ->
  Forall (fun r => has_nul (url_map.short_url r) = false) (rows st) ->
  Forall (fun r => has_nul (url_map.short_url r) = false) (rows st').
Proof.
  intros [H|r _ _ _ H Hn|code r _ _ H|code H] Hall; rewrite H.
  - exact Hall.
  - apply Forall_app. split; [exact Hall | now repeat constructor].
  - apply Forall_map. eapply Forall_impl; [|exact Hall].
    intros x Hx. unfold bump_visits. now destruct (has_short_url code x).
  - apply Forall_map. eapply Forall_impl; [|exact Hall].
    intros x Hx. unfold deactivate_row. now destruct (has_short_url code x).
Qed.

Lemma reachable_no_nul st :
  reachable st ->
  Forall (fun r => has_nul (url_map.short_url r) = false) (rows st).
Proof.
  induction 1 as [|q st _ IH]; [constructor|].
  eapply effect_no_nul; [apply serve_effect | exact IH].
Qed.

Lemma reachable_lookup_refuses_nul st code :
  reachable st ->
  has_nul code = true ->
  fst (select_by_short_url code st) = inl CharacterNotInRepertoireError.
Proof.
  intros Hreach N. unfold select_by_short_url. cbn [fst].
  destruct (find _ _) as [r|] eqn:F; [|now rewrite N].
  apply find_in in F as [Hr Hc].
  apply reachable_no_nul in Hreach. rewrite Forall_forall in Hreach.
  specialize (Hreach r Hr). congruence.
Qed.

Lemma insert_url_map_free code url t st :
  has_nul code = false ->
  (String.length code <= 255)%nat ->
  free st code ->
  url_map_id_seq st < INT4_MAX ->
  insert_url_map code url t 0 true st
  = (inr (url_map.mk (url_map_id_seq st + 1) code url t 0 true),
     mkStore (rows st ++ [url_map.mk (url_map_id_seq st + 1) code url t 0 true])
             (url_map_id_seq st + 1)).
Proof.
  intros Hnul Hlen Hfree Hseq. unfold insert_url_map, insert_url_map_on.
  rewrite Hnul, varchar_short by exact Hlen. cbn [in_int4 negb].
  change (negb (in_int4 0)) with false. cbv iota.
  assert (E : (INT4_MAX <? url_map_id_seq st + 1) = false)
    by (apply Z.ltb_ge; lia).
  rewrite E. apply find_has_short_url_none in Hfree. now rewrite Hfree.
Qed.

Lemma yield_drawn w : drawn (yield w) = drawn w.
Proof. unfold yield. now destruct (others w). Qed.

Lemma yield_utc w : utc (yield w) = utc w.
Proof. unfold yield. now destruct (others w). Qed.

Lemma in_chars_alnum c : in_chars c <-> is_alnum c = true.
Proof.
  unfold in_chars.
  assert (E : existsb (Ascii.eqb c) (list_ascii_of_string chars) = is_alnum c)
    by (destruct c as [[] [] [] [] [] [] [] []]; reflexivity).
  rewrite <- E, existsb_exists. split.
  - intros H. exists c. split; [exact H | apply Ascii.eqb_refl].
  - intros (x & Hx & Hcx). apply Ascii.eqb_eq in Hcx. now subst.
Qed.

Lemma chars_nodup : NoDup (list_ascii_of_string chars).
Proof.
  apply (NoDup_map_inv nat_of_ascii). vm_compute.
  repeat (constructor; [cbn; intuition discriminate|]). constructor.
Qed.

Lemma NoDup_map_eq {A B} (f : A -> B) (l : list A) x y :
  NoDup (map f l) -> In x l -> In y l -> f x = f y -> x = y.
Proof.
  induction l as [|a l IH]; cbn; intros Hnd Hx Hy E; [contradiction|].
  apply NoDup_cons_iff in Hnd as [Hna Hnd].
  destruct Hx as [->|Hx], Hy as [->|Hy]; auto.
  - exfalso. apply Hna. rewrite E. now apply in_map.
  - exfalso. apply Hna. rewrite <- E. now apply in_map.
Qed.

Lemma map_fixed {A} (f : A -> A) (l : list A) :
  (forall x, In x l -> f x = x) -> map f l = l.
Proof.
  induction l as [|a l IH]; cbn; intros H; [reflexivity|].
  rewrite H, IH; auto.
Qed.

Lemma set_is_active_same r :
  url_map.is_active r = false -> url_map.set_is_active false r = r.
Proof. destruct r; cbn. now intros ->. Qed.

Lemma update_visits_ok code st u st' :
  update_visits code st = (inr u, st') ->
  rows st' = map (bump_visits code) (rows st).
Proof.
  unfold update_visits. destruct (existsb _ _); [discriminate|].
  now intros [= _ <-].
Qed.

Lemma update_visits_below code st :
  (forall x, In x (rows st) -> url_map.short_url x = code ->
             url_map.visits x < INT4_MAX) ->
  update_visits code st
  = (inr tt, mkStore (map (bump_visits code) (rows st)) (url_map_id_seq st)).
Proof.
  intros H. unfold update_visits.
  destruct (existsb _ _) eqn:E; [|reflexivity].
  apply existsb_exists in E as (x & Hin & Hx).
  apply andb_true_iff in Hx as [Hc Hv].
  apply has_short_url_true in Hc. apply Z.leb_le in Hv.
  specialize (H x Hin Hc). lia.
Qed.

(** ** Sequences of requests *)

Lemma serve_all_cons q qs st :
  serve_all (q :: qs) st = serve_all qs (serve q st).
Proof. reflexivity. Qed.

Lemma filter_map_fixed {A} (p : A -> bool) (f : A -> A) (l : list A) :
  (forall x, In x l -> p (f x) = p x /\ (p x = true -> f x = x)) ->
  filter p (map f l) = filter p l.
Proof.
  induction l as [|a l IH]; cbn; intros H; [reflexivity|].
  destruct (H a (or_introl eq_refl)) as [Hp Hf]. rewrite Hp.
  destruct (p a); rewrite IH; auto. now rewrite Hf.
Qed.

Lemma find_filter {A} (p : A -> bool) (l : list A) :
  find p l = hd_error (filter p l).
Proof.
  induction l as [|a l IH]; cbn; [reflexivity|].
  now destruct (p a).
Qed.

Lemma has_short_url_bump code code' x :
  has_short_url code (bump_visits code' x) = has_short_url code x.
Proof. unfold bump_visits. now destruct (has_short_url code' x). Qed.

Lemma has_short_url_deactivate code code' x :
  has_short_url code (deactivate_row code' x) = has_short_url code x.
Proof. unfold deactivate_row. now destruct (has_short_url code' x). Qed.

(** Once every row with [code] is inactive, and there is one, no request
    touches those rows. *)
Lemma effect_keeps_deactivated code st st' :
  effect st st' ->
  filter (has_short_url code) (rows st) <> [] ->
  Forall (fun r => url_map.is_active r = false)
         (filter (has_short_url code) (rows st)) ->
  filter (has_short_url code) (rows st')
  = filter (has_short_url code) (rows st).
Proof.
  intros [H|r _ Hfresh _ H _|code' r F A H|code' H] Hne Hall; rewrite H.
  - reflexivity.
  - rewrite filter_app. cbn.
    destruct (has_short_url code r) eqn:Hc; [|apply app_nil_r].
    exfalso. apply has_short_url_true in Hc.
    destruct (filter (has_short_url code) (rows st)) as [|x l] eqn:E;
      [congruence|].
    assert (Hx : In x (filter (has_short_url code) (rows st)))
      by (rewrite E; now left).
    apply filter_In in Hx as [Hx Hxc]. apply has_short_url_true in Hxc.
    apply Hfresh. rewrite Hc, <- Hxc. now apply in_map.
  - apply filter_map_fixed. intros x Hx.
    split; [apply has_short_url_bump|]. intros Hc.
    unfold bump_visits. destruct (has_short_url code' x) eqn:Hc'; [|reflexivity].
    exfalso. apply find_in in F as [Hr Hrc].
    apply has_short_url_true in Hc, Hc'.
    rewrite Forall_forall in Hall.
    assert (url_map.is_active r = false); [|congruence].
    apply Hall, filter_In. split; [exact Hr|].
    apply has_short_url_true. congruence.
  - apply filter_map_fixed. intros x Hx.
    split; [apply has_short_url_deactivate|]. intros Hc.
    unfold deactivate_row. destruct (has_short_url code' x); [|reflexivity].
    apply set_is_active_same.
    rewrite Forall_forall in Hall. apply Hall, filter_In. now split.
Qed.

Lemma serve_all_keeps_deactivated code qs : forall st,
  filter (has_short_url code) (rows st) <> [] ->
  Forall (fun r => url_map.is_active r = false)
         (filter (has_short_url code) (rows st)) ->
  filter (has_short_url code) (rows (serve_all qs st))
  = filter (has_short_url code) (rows st).
Proof.
  induction qs as [|q qs IH]; intros st Hne Hall; [reflexivity|].
  rewrite serve_all_cons.
  assert (E := effect_keeps_deactivated code st (serve q st)
                 (serve_effect q st) Hne Hall).
  rewrite IH; rewrite E; auto.
Qed.

Lemma deactivated_after code l :
  Forall (fun r => url_map.is_active r = false)
         (filter (has_short_url code) (map (deactivate_row code) l)).
Proof.
  apply Forall_forall. intros x Hx.
  apply filter_In in Hx as [Hx Hc].
  apply in_map_iff in Hx as (x0 & <- & _).
  rewrite has_short_url_deactivate in Hc.
  unfold deactivate_row. now rewrite Hc.
Qed.

Lemma Forall2_same {A} (R : A -> A -> Prop) (f : A -> A) (l : list A) :
  (forall x, R x (f x)) -> Forall2 R l (map f l).
Proof. intros H. induction l; cbn; constructor; auto. Qed.

Lemma Forall2_compose {A} (R : A -> A -> Prop) :
  (forall x y z, R x y -> R y z -> R x z) ->
  forall l1 l2 l3, Forall2 R l1 l2 -> Forall2 R l2 l3 -> Forall2 R l1 l3.
Proof.
  intros Ht l1 l2 l3 H12. revert l3.
  induction H12; intros l3 H23; inversion H23; subst; constructor; eauto.
Qed.

Lemma flag_kept_down_refl r : flag_kept_down r r.
Proof. repeat split; auto. Qed.

Lemma flag_kept_down_trans r1 r2 r3 :
  flag_kept_down r1 r2 -> flag_kept_down r2 r3 -> flag_kept_down r1 r3.
Proof.
  intros (Hi & Hc & Ha) (Hi' & Hc' & Ha'). repeat split; try congruence; auto.
Qed.

Lemma flag_kept_down_bump code r : flag_kept_down r (bump_visits code r).
Proof.
  unfold bump_visits. destruct (has_short_url code r); repeat split; auto.
Qed.

Lemma flag_kept_down_deactivate code r :
  flag_kept_down r (deactivate_row code r).
Proof.
  unfold deactivate_row. destruct (has_short_url code r); repeat split; auto.
Qed.

Lemma effect_flags st st' :
  effect st st' ->
  exists kept created : list Row,
    rows st' = (kept ++ created)%list
    /\ Forall2 flag_kept_down (rows st) kept
    /\ Forall (fun r => url_map.is_active r = true) created.
Proof.
  intros [H|r _ _ A H _|code r _ _ H|code H]; rewrite H.
  - exists (rows st), []. rewrite app_nil_r. repeat split; auto.
    rewrite <- (map_id (rows st)) at 2.
    apply Forall2_same, flag_kept_down_refl.
  - exists (rows st), [r]. repeat split; auto.
    rewrite <- (map_id (rows st)) at 2.
    apply Forall2_same, flag_kept_down_refl.
  - eexists _, []. rewrite app_nil_r. repeat split; auto.
    apply Forall2_same, flag_kept_down_bump.
  - eexists _, []. rewrite app_nil_r. repeat split; auto.
    apply Forall2_same, flag_kept_down_deactivate.
Qed.

Lemma flags_monotone_trans l1 l2 l3 :
  flags_monotone l1 l2 -> flags_monotone l2 l3 -> flags_monotone l1 l3.
Proof.
  intros (k1 & c1 & -> & H1) (k2 & c2 & -> & H2).
  apply Forall2_app_inv_l in H2 as (k2a & k2b & Ha & _ & ->).
  exists k2a, (k2b ++ c2)%list. split; [now rewrite app_assoc|].
  eapply Forall2_compose; eauto using flag_kept_down_trans.
Qed.

Lemma serve_all_flags qs : forall st,
  flags_monotone (rows st) (rows (serve_all qs st)).
Proof.
  induction qs as [|q qs IH]; intros st.
  - exists (rows st), []. rewrite app_nil_r. split; auto.
    rewrite <- (map_id (rows st)) at 2.
    apply Forall2_same, flag_kept_down_refl.
  - rewrite serve_all_cons. eapply flags_monotone_trans; [|apply IH].
    destruct (effect_flags _ _ (serve_effect q st)) as (k & c & E & H & _).
    now exists k, c.
Qed.

(** ** Orderings *)

Lemma insert_desc_perm r l : Permutation (r :: l) (insert_desc r l).
Proof.
  induction l as [|x l IH]; cbn; [reflexivity|].
  destruct (url_map.created_at x <=? url_map.created_at r); [reflexivity|].
  rewrite perm_swap. now constructor.
Qed.

Lemma stable_desc_perm l : Permutation l (stable_desc l).
Proof.
  induction l as [|r l IH]; cbn; [constructor|].
  rewrite <- insert_desc_perm. now constructor.
Qed.

Lemma insert_desc_sorted r l :
  StronglySorted newest_first l -> StronglySorted newest_first (insert_desc r l).
Proof.
  induction 1 as [|x l Hs IH Hx]; cbn.
  - repeat constructor.
  - destruct (url_map.created_at x <=? url_map.created_at r) eqn:E.
    + apply Z.leb_le in E. constructor; [now constructor|].
      constructor; [exact E|].
      eapply Forall_impl; [|exact Hx]. unfold newest_first. intros; lia.
    + apply Z.leb_gt in E. constructor; [exact IH|].
      rewrite <- insert_desc_perm. constructor; [|exact Hx].
      unfold newest_first. lia.
Qed.

Lemma stable_desc_sorted l : StronglySorted newest_first (stable_desc l).
Proof.
  induction l; cbn; [constructor | now apply insert_desc_sorted].
Qed.

Lemma stable_desc_orders : orders_by_created_at_desc stable_desc.
Proof. intros l. split; [apply stable_desc_perm | apply stable_desc_sorted]. Qed.

Lemma heap_order_perm l : Permutation l (heap_order l).
Proof.
  unfold heap_order. induction l as [|x l IH]; cbn; [constructor|].
  destruct (as_inserted x); cbn.
  - now constructor.
  - now apply Permutation_cons_app.
Qed.

Lemma rewritten_last_orders : orders_by_created_at_desc rewritten_last.
Proof.
  intros l. unfold rewritten_last. split; [|apply stable_desc_sorted].
  rewrite <- stable_desc_perm. apply heap_order_perm.
Qed.

Lemma newest_first_keys l :
  StronglySorted newest_first l ->
  StronglySorted (fun a b => b <= a) (map url_map.created_at l).
Proof.
  induction 1 as [|x l Hs IH Hx]; cbn; constructor; auto.
  now apply Forall_map.
Qed.

(** A list of numbers has one descending arrangement. *)
Lemma descending_unique (k1 : list Z) : forall k2,
  Permutation k1 k2 ->
  StronglySorted (fun a b => b <= a) k1 ->
  StronglySorted (fun a b => b <= a) k2 ->
  k1 = k2.
Proof.
  induction k1 as [|a t1 IH]; intros k2 Hp H1 H2.
  - now apply Permutation_nil in Hp.
  - destruct k2 as [|b t2]; [now apply Permutation_sym, Permutation_nil in Hp|].
    apply StronglySorted_inv in H1 as [H1 Ha], H2 as [H2 Hb].
    rewrite Forall_forall in Ha, Hb.
    assert (a = b) as <-.
    { assert (Hab : In a (b :: t2))
        by (eapply Permutation_in; [exact Hp | now left]).
      assert (Hba : In b (a :: t1))
        by (eapply Permutation_in; [symmetry; exact Hp | now left]).
      destruct Hab as [->|Hab]; [reflexivity|].
      destruct Hba as [->|Hba]; [reflexivity|].
      specialize (Ha _ Hba). specialize (Hb _ Hab). lia. }
    f_equal. apply IH; auto. now apply Permutation_cons_inv in Hp.
Qed.

Lemma same_keys_same_rows (l1 : list Row) : forall l2,
  Permutation l1 l2 ->
  map url_map.created_at l1 = map url_map.created_at l2 ->
  NoDup (map url_map.created_at l1) ->
  l1 = l2.
Proof.
  induction l1 as [|x t1 IH]; intros l2 Hp Hk Hn.
  - now apply Permutation_nil in Hp.
  - destruct l2 as [|y t2]; [discriminate|].
    cbn in Hk. injection Hk as Hxy Hk.
    apply NoDup_cons_iff in Hn as [Hx Hn].
    assert (x = y) as <-.
    { assert (Hy : In y (x :: t1))
        by (eapply Permutation_in; [symmetry; exact Hp | now left]).
      destruct Hy as [Hy|Hy]; [exact Hy|].
      exfalso. apply Hx. rewrite Hxy. now apply in_map. }
    f_equal. apply IH; auto. now apply Permutation_cons_inv in Hp.
Qed.

(** What every ordering that [ORDER BY created_at DESC] allows has in
    common with [stable_desc]. *)
Section Ordering.

Variable order_by : list Row -> list Row.
Hypothesis order_by_ok : orders_by_created_at_desc order_by.

Lemma order_by_keys l :
  map url_map.created_at (order_by l) = map url_map.created_at (stable_desc l).
Proof.
  destruct (order_by_ok l) as [Hp Hs].
  apply descending_unique; try apply newest_first_keys;
    auto using stable_desc_sorted.
  apply Permutation_map. rewrite <- Hp. apply stable_desc_perm.
Qed.

Lemma order_by_distinct l :
  NoDup (map url_map.created_at l) -> order_by l = stable_desc l.
Proof.
  intros Hn. destruct (order_by_ok l) as [Hp _].
  apply same_keys_same_rows.
  - rewrite <- Hp. apply stable_desc_perm.
  - apply order_by_keys.
  - eapply Permutation_NoDup; [|exact Hn]. now apply Permutation_map.
Qed.

Lemma order_by_nil : order_by [] = [].
Proof.
  destruct (order_by_ok []) as [Hp _]. now apply Permutation_nil in Hp.
Qed.

End Ordering.

(** A redirect that has done its lookup goes on to its [UPDATE], which
    names the code only: a deactivation served in between does not stop
    the visit from being counted. *)
Lemma redirect_in_flight_is_counted :
  redirect_to_url "aaaaaa" deactivating_world
  = (Return (mkRedirect example_url 307),
     alone (mkStore [url_map.mk 1 "aaaaaa" example_url 1000 1 false] 1)
           zeros 3000).
Proof. reflexivity. Qed.

(** * The claims *)

(** C1.  In every store the service can reach, creating with a custom code
    that some mapping already carries, active or not, raises
    [HTTPException(400, "Custom short URL already in use")] and leaves the
    world, hence every row, exactly as it was. *)
Theorem create_custom_code_in_use st r fuel url random now :
  reachable st ->
  In r (rows st) ->
  create_short_url fuel (URLCreate.mk url (Some (url_map.short_url r)))
                   (alone st random now)
  = (Raise CodeAlreadyInUse, alone st random now).
Proof.
  intros Hreach Hin.
  assert (Hne : url_map.short_url r <> "").
  { destruct (reachable_codes st Hreach) as [_ Hn].
    intros E. apply Hn. rewrite <- E. now apply in_map. }
  assert (T : truthy (URLCreate.custom_path
                        (URLCreate.mk url (Some (url_map.short_url r)))) = true).
  { cbn. now apply negb_true_iff, String.eqb_neq. }
  destruct (choose_custom_path fuel _ T) as (code & Hcode & _ & Hrun).
  cbn in Hcode. injection Hcode as <-.
  rewrite create_short_url_run, Hrun, yield_alone by reflexivity.
  destruct (find _ _) eqn:F; [reflexivity|].
  now apply in_taken in Hin.
Qed.

Lemma create_custom_code_in_use_witness :
  reachable promo_store /\ In promo_row (rows promo_store)
  /\ create_short_url 0 (URLCreate.mk "https://example.com/b" (Some "promo1"))
                      (alone promo_store zeros 2000)
     = (Raise CodeAlreadyInUse, alone promo_store zeros 2000).
Proof.
  assert (Hreach : reachable promo_store)
    by (unfold promo_store; repeat constructor).
  assert (Hin : In promo_row (rows promo_store)) by (left; reflexivity).
  split; [exact Hreach|]. split; [exact Hin|].
  exact (create_custom_code_in_use promo_store promo_row 0
           "https://example.com/b" zeros 2000 Hreach Hin).
Defined.

(** C2, as the code has it.  On the random path [create_short_url] draws
    candidates until the first one that no row carries.  When that is the
    candidate number [k] (counting from 0) and the sequence behind [id] is
    not used up, the call returns the mapping created under it after
    exactly [k + 1] candidates, however large [k] is; when fewer than
    [k + 1] iterations are examined the loop has raised nothing and is
    still drawing.  No retry budget and no exhausted-retries error take
    part. *)
Theorem create_random_stops_at_first_free st random now url_data k :
  truthy (URLCreate.custom_path url_data) = false ->
  (forall j, (j < k)%nat -> taken st (candidate random j)) ->
  free st (candidate random k) ->
  url_map_id_seq st < INT4_MAX ->
  forall fuel,
    create_short_url fuel url_data (alone st random now)
    = if (k <? fuel)%nat
      then
        let r := url_map.mk (url_map_id_seq st + 1) (candidate random k)
                            (URLCreate.url url_data) now 0 true in
        (Return (to_response r),
         mkWorld (mkStore (rows st ++ [r]) (url_map_id_seq st + 1))
                 [] random (6 * S k) now)
      else (OutOfFuel, mkWorld st [] random (6 * fuel) now).
Proof.
  intros T Htaken Hfree Hseq fuel.
  rewrite create_short_url_run, choose_random_path by exact T.
  destruct (k <? fuel)%nat eqn:K.
  - apply Nat.ltb_lt in K.
    rewrite (generate_unique_first_free k fuel (alone st random now) 0%nat);
      auto.
    rewrite insert_mapping_run, yield_alone by reflexivity.
    cbn [advance alone db utc others rng drawn set_db Nat.add].
    rewrite insert_url_map_free; auto.
    + apply has_nul_code_from.
    + unfold candidate. rewrite code_from_length. repeat constructor.
  - apply Nat.ltb_ge in K.
    rewrite (generate_unique_still_running fuel (alone st random now) 0%nat);
      auto.
    intros j Hj. apply Htaken. cbn. lia.
Qed.

Lemma create_random_stops_at_first_free_witness :
  create_short_url 5 (URLCreate.mk example_url None)
                   (alone aaaaaa_store (fun i => (i / 6)%nat) 2000)
  = (Return (URLResponse.mk "bbbbbb" example_url 2000 0),
     mkWorld (mkStore [url_map.mk 1 "aaaaaa" example_url 1000 0 true;
                       url_map.mk 2 "bbbbbb" example_url 2000 0 true] 2)
             [] (fun i => (i / 6)%nat) 12 2000).
Proof.
  refine (create_random_stops_at_first_free aaaaaa_store (fun i => (i / 6)%nat)
            2000 (URLCreate.mk example_url None) 1 eq_refl _ _ _ 5%nat).
  - intros j Hj. assert (j = 0%nat) as -> by lia. vm_compute. discriminate.
  - reflexivity.
  - reflexivity.
Defined.

(** C2, as the claim states it, fails: when every candidate drawn is
    taken, no number of iterations makes the call return or raise. *)
Lemma create_random_unbounded_loop :
  ~ exists fuel,
      fst (create_short_url fuel (URLCreate.mk example_url None)
                            (alone aaaaaa_store zeros 2000))
      <> OutOfFuel.
Proof.
  intros [fuel H]. apply H.
  rewrite create_short_url_run, choose_random_path by reflexivity.
  rewrite (generate_unique_still_running fuel _ 0%nat); try reflexivity.
  intros j _. vm_compute. discriminate.
Qed.

(** C3, as the code has it.  Whenever the [INSERT] of [create_short_url]
    is rejected by the [UNIQUE] constraint on [short_url], on the custom
    and on the random path alike, the call raises the database's
    unique-violation error, which no handler catches: it does not return a
    mapping, it does not raise the 400 of a code in use, it draws no
    further candidate, and the rejected insert adds no row. *)
Theorem create_insert_rejected_is_raised fuel url_data w code w1 st' :
  choose_short_url fuel url_data w = (Return code, w1) ->
  insert_url_map code (URLCreate.url url_data) (utc w1) 0 true (db (yield w1))
  = (inl UniqueViolationError, st') ->
  create_short_url fuel url_data w
  = (Raise (PostgresError UniqueViolationError), set_db st' (yield w1))
  /\ rows st' = rows (db (yield w1))
  /\ drawn (set_db st' (yield w1)) = drawn w1.
Proof.
  intros C I. split; [|split].
  - now rewrite create_short_url_run, C, insert_mapping_run, I.
  - eapply insert_url_map_rejected; eauto.
  - cbn. apply yield_drawn.
Qed.

Lemma create_insert_rejected_is_raised_witness :
  create_short_url 5 (URLCreate.mk example_url None) (racing_world "aaaaaa")
  = (Raise (PostgresError UniqueViolationError),
     mkWorld (mkStore [url_map.mk 1 "aaaaaa" "https://example.org/other"
                                  1500 0 true] 2)
             [] zeros 6 2000).
Proof.
  refine (proj1 (create_insert_rejected_is_raised 5
            (URLCreate.mk example_url None) (racing_world "aaaaaa") "aaaaaa"
            (mkWorld empty_store [competitor "aaaaaa"] zeros 6 2000)
            (mkStore [url_map.mk 1 "aaaaaa" "https://example.org/other"
                                 1500 0 true] 2) _ _)); reflexivity.
Defined.

(** C3, as the claim states it, fails on both paths.  Another request
    inserts the code between the existence check and the insert: the
    custom path then raises the unique-violation error, not the 400 of a
    code in use; the random path raises it too, after one candidate, with
    iterations to spare. *)
Lemma create_race_neither_retried_nor_in_use :
  fst (choose_short_url 0 (URLCreate.mk example_url (Some "promo1"))
                        (racing_world "promo1"))
  = Return "promo1"
  /\ fst (insert_url_map "promo1" example_url 2000 0 true
                         (competitor "promo1" empty_store))
     = inl UniqueViolationError
  /\ fst (create_short_url 0 (URLCreate.mk example_url (Some "promo1"))
                           (racing_world "promo1"))
     = Raise (PostgresError UniqueViolationError)
  /\ fst (create_short_url 0 (URLCreate.mk example_url (Some "promo1"))
                           (racing_world "promo1"))
     <> Raise CodeAlreadyInUse
  /\ fst (create_short_url 5 (URLCreate.mk example_url None)
                           (racing_world "aaaaaa"))
     = Raise (PostgresError UniqueViolationError)
  /\ drawn (snd (create_short_url 5 (URLCreate.mk example_url None)
                                  (racing_world "aaaaaa")))
     = 6%nat.
Proof.
  repeat apply conj; try reflexivity.
  vm_compute. discriminate.
Qed.

(** C6.  A mapping returned by [create_short_url] is the last row of the
    table, stored with [visits = 0] and [is_active = TRUE], and the
    response shows its [visits = 0].  On the random path its code has
    exactly 6 characters, each one of [chars]; [chars] holds 62 distinct
    characters, the letters of both cases and the digits. *)
Theorem create_returns_fresh_mapping fuel url_data w resp w' :
  create_short_url fuel url_data w = (Return resp, w') ->
  URLResponse.visits resp = 0
  /\ (exists (r : Row) (before : list Row),
        rows (db w') = (before ++ [r])%list
        /\ to_response r = resp
        /\ url_map.visits r = 0
        /\ url_map.is_active r = true)
  /\ (truthy (URLCreate.custom_path url_data) = false ->
      String.length (URLResponse.short_url resp) = 6%nat
      /\ Forall in_chars (list_ascii_of_string (URLResponse.short_url resp)))
  /\ String.length chars = 62%nat
  /\ NoDup (list_ascii_of_string chars)
  /\ (forall c, in_chars c <-> is_alnum c = true).
Proof.
  intros H. rewrite create_short_url_run in H.
  destruct (choose_short_url fuel url_data w) as [[code|e|] w1] eqn:C;
    try discriminate.
  rewrite insert_mapping_run in H.
  destruct (insert_url_map _ _ _ _ _ _) as [[e|r] st'] eqn:I; [discriminate|].
  injection H as <- <-.
  apply insert_url_map_ok in I as (c & Hc & -> & Hrows & _).
  split; [reflexivity|]. split.
  - eexists _, _. cbn [set_db db]. split; [exact Hrows|]. now cbn.
  - split; [|auto using chars_length, chars_nodup, in_chars_alnum].
    intros T. rewrite choose_random_path in C by exact T.
    apply generate_unique_returns in C as [Hlen Hin].
    rewrite varchar_short in Hc by (rewrite Hlen; repeat constructor).
    injection Hc as <-. now cbn.
Qed.

Lemma create_returns_fresh_mapping_witness :
  URLResponse.visits (URLResponse.mk "aaaaaa" example_url 2000 0) = 0
  /\ String.length "aaaaaa" = 6%nat.
Proof.
  assert (H := create_returns_fresh_mapping 1 (URLCreate.mk example_url None)
                 (alone empty_store zeros 2000)
                 (URLResponse.mk "aaaaaa" example_url 2000 0)
                 (mkWorld (mkStore [url_map.mk 1 "aaaaaa" example_url 2000 0 true] 1)
                          [] zeros 6 2000)
                 eq_refl).
  split; [exact (proj1 H)|].
  exact (proj1 (proj1 (proj2 (proj2 H)) eq_refl)).
Defined.

(** C4.  A call of [redirect_to_url] that returns found an active mapping
    under the code, redirects to its [original_url], and leaves the table
    as the [UPDATE] found it except that [visits] of the rows with that
    code is one more than the stored value (so what other requests added
    between the lookup and the update is kept).  It does return when the
    mapping is active and its counter is below the largest [INTEGER].  A
    call that raises, run alone, leaves the world as it was. *)
Theorem redirect_counts_one_visit code :
  (forall w resp w',
      redirect_to_url code w = (Return resp, w') ->
      exists r,
        find (has_short_url code) (rows (db (yield w))) = Some r
        /\ url_map.is_active r = true
        /\ resp = mkRedirect (url_map.original_url r) 307
        /\ Forall2 (fun x x' =>
                      if String.eqb (url_map.short_url x) code
                      then x' = url_map.set_visits (url_map.visits x + 1) x
                      else x' = x)
                   (rows (db (yield (yield w)))) (rows (db w')))
  /\ (forall st random now r,
        unique_short_url st ->
        find (has_short_url code) (rows st) = Some r ->
        url_map.is_active r = true ->
        url_map.visits r < INT4_MAX ->
        redirect_to_url code (alone st random now)
        = (Return (mkRedirect (url_map.original_url r) 307),
           alone (mkStore (map (bump_visits code) (rows st)) (url_map_id_seq st))
                 random now))
  /\ (forall w e w',
        others w = [] ->
        redirect_to_url code w = (Raise e, w') -> w' = w).
Proof.
  split; [|split].
  - intros w resp w' H. rewrite redirect_to_url_run in H.
    destruct (find _ _) as [r|]; [|destruct (has_nul code); discriminate].
    destruct (url_map.is_active r) eqn:A; [|discriminate].
    destruct (update_visits _ _) as [[e|u] st'] eqn:U; [discriminate|].
    injection H as <- <-. exists r. repeat split; auto.
    apply update_visits_ok in U. cbn [set_db db]. rewrite U. clear.
    induction (rows _) as [|x l IH]; constructor; auto.
    unfold bump_visits, has_short_url. now destruct (String.eqb _ _).
  - intros st random now r Hu F A V.
    rewrite redirect_to_url_run, !yield_alone by reflexivity.
    cbn [alone db]. rewrite F, A, update_visits_below; [reflexivity|].
    intros x Hx Hc. apply find_in in F as [Hr Hrc].
    now rewrite (NoDup_map_eq url_map.short_url (rows st) x r Hu Hx Hr)
      by congruence.
  - intros w e w' Hq H.
    rewrite redirect_to_url_run, !(yield_alone w Hq) in H.
    destruct (find _ _) as [r|]; [|destruct (has_nul code); congruence].
    destruct (url_map.is_active r); [|congruence].
    unfold update_visits in H.
    destruct (existsb _ _); [|discriminate].
    injection H as _ <-. apply set_db_same.
Qed.

Lemma redirect_counts_one_visit_witness :
  redirect_to_url "aaaaaa" (alone visited_store zeros 3000)
  = (Return (mkRedirect example_url 307),
     alone (mkStore [url_map.mk 1 "aaaaaa" example_url 1000 3 true] 1)
           zeros 3000)
  /\ snd (redirect_to_url "promo1" (alone promo_store zeros 3000))
     = alone promo_store zeros 3000.
Proof.
  split.
  - refine (proj1 (proj2 (redirect_counts_one_visit "aaaaaa")) visited_store
              zeros 3000 (url_map.mk 1 "aaaaaa" example_url 1000 2 true)
              _ eq_refl eq_refl eq_refl).
    vm_compute. repeat constructor. intros [].
  - exact (proj2 (proj2 (redirect_counts_one_visit "promo1"))
             (alone promo_store zeros 3000) NotFound
             (snd (redirect_to_url "promo1" (alone promo_store zeros 3000)))
             eq_refl eq_refl).
Defined.

(** C5, as the code has it.  For a code without the character NUL,
    [redirect_to_url] raises [HTTPException(404, "URL not found")]
    exactly when its lookup finds no row with the code or finds one whose
    [is_active] is false; in both cases the caller gets the same exception
    and the handler has changed nothing.  A code with a NUL that no row
    carries is refused by the database: the call ends in that error, not
    in the 404. *)
Theorem redirect_not_found_iff code w :
  (has_nul code = false ->
   (fst (redirect_to_url code w) = Raise NotFound
    <-> find (has_short_url code) (rows (db (yield w))) = None
        \/ exists r, find (has_short_url code) (rows (db (yield w))) = Some r
                     /\ url_map.is_active r = false)
   /\ (find (has_short_url code) (rows (db (yield w))) = None
       \/ (exists r, find (has_short_url code) (rows (db (yield w))) = Some r
                     /\ url_map.is_active r = false) ->
       redirect_to_url code w = (Raise NotFound, yield w)))
  /\ (has_nul code = true ->
      find (has_short_url code) (rows (db (yield w))) = None ->
      redirect_to_url code w
      = (Raise (PostgresError CharacterNotInRepertoireError), yield w)).
Proof.
  rewrite redirect_to_url_run. split.
  - intros N. rewrite N.
    destruct (find _ _) as [r|].
    + destruct (url_map.is_active r) eqn:A.
      * split.
        -- split.
           ++ destruct (update_visits _ _) as [[e|u] st']; discriminate.
           ++ intros [H|(r' & H & A')]; congruence.
        -- intros [H|(r' & H & A')]; congruence.
      * split; [|reflexivity]. split; [|reflexivity].
        intros _. right. now exists r.
    + split; [|reflexivity]. split; [|reflexivity]. now left.
  - intros N F. now rewrite F, N.
Qed.

Lemma redirect_not_found_iff_witness :
  redirect_to_url "promo1" (alone promo_store zeros 3000)
  = (Raise NotFound, alone promo_store zeros 3000)
  /\ redirect_to_url "nosuch" (alone promo_store zeros 3000)
     = (Raise NotFound, alone promo_store zeros 3000)
  /\ redirect_to_url nul_code (alone promo_store zeros 3000)
     = (Raise (PostgresError CharacterNotInRepertoireError),
        alone promo_store zeros 3000).
Proof.
  split; [|split].
  - refine (proj2 (proj1 (redirect_not_found_iff "promo1"
                            (alone promo_store zeros 3000)) eq_refl) _).
    right. exists promo_row. split; reflexivity.
  - refine (proj2 (proj1 (redirect_not_found_iff "nosuch"
                            (alone promo_store zeros 3000)) eq_refl) _).
    left. reflexivity.
  - exact (proj2 (redirect_not_found_iff nul_code
                    (alone promo_store zeros 3000)) eq_refl eq_refl).
Defined.

(** C5, as the claim states it, fails for a code the database refuses:
    no mapping carries the code made of one NUL, yet resolving it does not
    end in the 404 but in the database's error. *)
Lemma redirect_nul_code_is_refused :
  find (has_short_url nul_code) (rows promo_store) = None
  /\ fst (redirect_to_url nul_code (alone promo_store zeros 3000))
     = Raise (PostgresError CharacterNotInRepertoireError)
  /\ fst (redirect_to_url nul_code (alone promo_store zeros 3000))
     <> Raise NotFound.
Proof.
  repeat apply conj; try reflexivity.
  vm_compute. discriminate.
Qed.

(** C10.  Deactivating a code whose mapping is already inactive returns
    that mapping and leaves the world, hence every field of every row,
    as it was. *)
Theorem deactivate_inactive_is_noop st code r random now :
  unique_short_url st ->
  find (has_short_url code) (rows st) = Some r ->
  url_map.is_active r = false ->
  deactivate_url code (alone st random now)
  = (Return (to_response r), alone st random now).
Proof.
  intros Hu F A.
  assert (E : map (deactivate_row code) (rows st) = rows st).
  { apply map_fixed. intros x Hx. unfold deactivate_row.
    destruct (has_short_url code x) eqn:Hc; [|reflexivity].
    apply has_short_url_true in Hc. apply find_in in F as [Hr Hrc].
    rewrite (NoDup_map_eq url_map.short_url (rows st) x r Hu Hx Hr)
      by congruence.
    now apply set_is_active_same. }
  rewrite deactivate_url_run, !yield_alone by reflexivity.
  cbn [alone db]. rewrite F. cbv zeta. rewrite E, F.
  now destruct st.
Qed.

Lemma deactivate_inactive_is_noop_witness :
  deactivate_url "promo1" (alone promo_store zeros 3000)
  = (Return (URLResponse.mk "promo1" example_url 1000 0),
     alone promo_store zeros 3000).
Proof.
  refine (deactivate_inactive_is_noop promo_store "promo1" promo_row zeros 3000
            _ eq_refl eq_refl).
  vm_compute. repeat constructor. intros [].
Defined.

(** C7, as the code has it.  After a call of [deactivate_url] that
    returned, whatever requests are then served one after the other, in
    whatever number and order, a [redirect_to_url] of that code raises
    [HTTPException(404, "URL not found")] and changes nothing, and the
    rows carrying the code are, field for field, those the deactivation
    left: [visits] among them.  Among requests that overlap, a
    [redirect_to_url] whose lookup finds the row inactive raises the 404
    and changes nothing, whatever the other requests do; nothing is said
    of one that did its lookup before the deactivation. *)
Theorem deactivation_is_sticky code :
  (forall w resp w1,
      deactivate_url code w = (Return resp, w1) ->
      forall qs random now,
        redirect_to_url code (alone (serve_all qs (db w1)) random now)
        = (Raise NotFound, alone (serve_all qs (db w1)) random now)
        /\ filter (has_short_url code) (rows (serve_all qs (db w1)))
           = filter (has_short_url code) (rows (db w1)))
  /\ (forall w r,
        find (has_short_url code) (rows (db (yield w))) = Some r ->
        url_map.is_active r = false ->
        redirect_to_url code w = (Raise NotFound, yield w)).
Proof.
  split.
  - intros w resp w1 H qs random now. rewrite deactivate_url_run in H.
    destruct (find _ (rows (db (yield w)))) as [r0|];
      [|destruct (has_nul code); discriminate].
    cbv zeta in H.
    destruct (find _ _) as [r|] eqn:F; [|discriminate].
    injection H as _ <-. cbn [set_db db].
    set (l := map (deactivate_row code) (rows (db (yield (yield w))))) in *.
    set (st1 := mkStore l _).
    assert (Hall : Forall (fun r => url_map.is_active r = false)
                          (filter (has_short_url code) (rows st1)))
      by apply deactivated_after.
    assert (Hne : filter (has_short_url code) (rows st1) <> []).
    { cbn [st1 rows]. rewrite find_filter in F.
      destruct (filter _ l); [discriminate|]. discriminate. }
    assert (E := serve_all_keeps_deactivated code qs st1 Hne Hall).
    split; [|exact E].
    rewrite redirect_to_url_run, !yield_alone by reflexivity. cbn [alone db].
    rewrite find_filter, E.
    destruct (filter _ (rows st1)) as [|x t]; [congruence|]. cbn.
    apply Forall_inv in Hall. now rewrite Hall.
  - intros w r F A. now rewrite redirect_to_url_run, F, A.
Qed.

Lemma deactivation_is_sticky_witness :
  redirect_to_url "aaaaaa"
    (alone (serve_all [ResolveAndCount "aaaaaa";
                       CreateMapping (URLCreate.mk example_url (Some "aaaaaa"))
                                     0 zeros 4000;
                       Deactivate "aaaaaa";
                       ResolveAndCount "aaaaaa"]
              (serve (Deactivate "aaaaaa") visited_store)) zeros 5000)
  = (Raise NotFound,
     alone (mkStore [url_map.mk 1 "aaaaaa" example_url 1000 2 false] 1)
           zeros 5000)
  /\ redirect_to_url "promo1" (racing_promo_world)
     = (Raise NotFound, yield racing_promo_world).
Proof.
  split.
  - exact (proj1 (proj1 (deactivation_is_sticky "aaaaaa")
                    (quiet visited_store)
                    (URLResponse.mk "aaaaaa" example_url 1000 2)
                    (quiet (serve (Deactivate "aaaaaa") visited_store))
                    eq_refl
                    [ResolveAndCount "aaaaaa";
                     CreateMapping (URLCreate.mk example_url (Some "aaaaaa"))
                                   0 zeros 4000;
                     Deactivate "aaaaaa";
                     ResolveAndCount "aaaaaa"]
                    zeros 5000)).
  - exact (proj2 (deactivation_is_sticky "promo1") racing_promo_world
                 promo_row eq_refl eq_refl).
Defined.

(** C7, as the claim states it, fails when requests overlap.  A
    resolution of ["aaaaaa"] has looked the code up; a whole
    [deactivate_url] of that code is then served and returns, leaving
    [visits = 0]; the resolution goes on to its [UPDATE], answers with
    the redirect, not the 404, and [visits] is 1. *)
Lemma redirect_in_flight_after_deactivation :
  fst (deactivate_url "aaaaaa" (quiet aaaaaa_store))
  = Return (URLResponse.mk "aaaaaa" example_url 1000 0)
  /\ rows (serve (Deactivate "aaaaaa") aaaaaa_store)
     = [url_map.mk 1 "aaaaaa" example_url 1000 0 false]
  /\ redirect_to_url "aaaaaa" in_flight_world
     = (Return (mkRedirect example_url 307),
        alone (mkStore [url_map.mk 1 "aaaaaa" example_url 1000 1 false] 1)
              zeros 3000)
  /\ fst (redirect_to_url "aaaaaa" in_flight_world) <> Raise NotFound.
Proof.
  repeat apply conj; try reflexivity.
  vm_compute. discriminate.
Qed.

(** C9.  Whatever request is served and whatever the store, every row
    that was there is still there with its [id] and [short_url], a row
    whose [is_active] was false still has it false, and a row that was
    added has [is_active] true.  Over any sequence of requests, then, a
    flag that is false never becomes true again. *)
Theorem is_active_only_goes_down :
  (forall q st,
      exists kept created : list Row,
        rows (serve q st) = (kept ++ created)%list
        /\ Forall2 flag_kept_down (rows st) kept
        /\ Forall (fun r => url_map.is_active r = true) created)
  /\ (forall qs st, flags_monotone (rows st) (rows (serve_all qs st))).
Proof.
  split.
  - intros q st. apply effect_flags, serve_effect.
  - intros qs st. apply serve_all_flags.
Qed.

(** C8, as the code has it.  For [0 <= skip < 2^63] and
    [1 <= limit <= 100], and whichever ordering the database produces for
    [ORDER BY created_at DESC], [get_stats] run alone returns: as [urls]
    the [limit] rows after the first [skip] of an arrangement of all rows
    in which [created_at] never increases; as [total_urls] the number of
    rows; as [total_visits] the sum of their [visits], 0 on an empty
    table; and it leaves the world as it was.  The [created_at] values
    appear in the one descending order there is, so rows with different
    [created_at] are placed by it alone, and a table whose [created_at]
    are all different is listed in exactly one way.  The order among rows
    with the same [created_at] is not fixed by the query. *)
Theorem get_stats_page_and_totals order_by st random now skip limit :
  orders_by_created_at_desc order_by ->
  0 <= skip <= INT8_MAX ->
  1 <= limit <= 100 ->
  get_stats order_by skip limit (alone st random now)
  = (Return (URLStats.mk
               (map to_response (offset_limit skip limit (order_by (rows st))))
               (Z.of_nat (List.length (rows st)))
               (sum_visits (rows st))),
     alone st random now)
  /\ Permutation (rows st) (order_by (rows st))
  /\ StronglySorted newest_first (order_by (rows st))
  /\ map url_map.created_at (order_by (rows st))
     = map url_map.created_at (stable_desc (rows st))
  /\ (NoDup (map url_map.created_at (rows st)) ->
      order_by (rows st) = stable_desc (rows st))
  /\ (rows st = [] ->
      fst (get_stats order_by skip limit (alone st random now))
      = Return (URLStats.mk [] 0 0)).
Proof.
  intros Ho Hs Hl.
  destruct (Ho (rows st)) as [Hp Hsorted].
  rewrite get_stats_run, !yield_alone by (auto; reflexivity).
  cbn [alone db fst].
  repeat apply conj; auto using order_by_keys, order_by_distinct.
  intros E. rewrite E, order_by_nil by exact Ho.
  unfold offset_limit. now rewrite skipn_nil, firstn_nil.
Qed.

Lemma get_stats_page_and_totals_witness :
  get_stats stable_desc 0 10 (alone visited_store zeros 3000)
  = (Return (URLStats.mk [URLResponse.mk "aaaaaa" example_url 1000 2] 1 2),
     alone visited_store zeros 3000)
  /\ fst (get_stats stable_desc 0 10 (alone empty_store zeros 3000))
     = Return (URLStats.mk [] 0 0).
Proof.
  split.
  - refine (proj1 (get_stats_page_and_totals stable_desc visited_store zeros
                     3000 0 10 stable_desc_orders _ _));
      unfold INT8_MAX; lia.
  - refine (proj2 (proj2 (proj2 (proj2 (proj2
              (get_stats_page_and_totals stable_desc empty_store zeros
                 3000 0 10 stable_desc_orders _ _))))) eq_refl);
      unfold INT8_MAX; lia.
Defined.

(** C8, as the claim states it, fails in two places.  Two mappings were
    created at the same instant, ["first"] before ["second"], and
    ["first"] was then resolved once, which rewrote its row: the
    database, reading the rewritten row last, lists ["second"] before
    ["first"], not in the order of insertion.  And for [skip = 2^63],
    which is [>= 0], the call returns no page: asyncpg refuses the
    argument. *)
Lemma get_stats_ties_not_by_insertion :
  orders_by_created_at_desc rewritten_last
  /\ rows tie_visited_store
     = [url_map.mk 1 "first" example_url 1000 1 true;
        url_map.mk 2 "second" example_url 1000 0 true]
  /\ fst (get_stats rewritten_last 0 10 (alone tie_visited_store zeros 3000))
     = Return (URLStats.mk [URLResponse.mk "second" example_url 1000 0;
                            URLResponse.mk "first" example_url 1000 1] 2 1)
  /\ map to_response (offset_limit 0 10 (stable_desc (rows tie_visited_store)))
     = [URLResponse.mk "first" example_url 1000 1;
        URLResponse.mk "second" example_url 1000 0]
  /\ fst (get_stats rewritten_last 0 10 (alone tie_visited_store zeros 3000))
     <> Return (URLStats.mk
                  (map to_response
                       (offset_limit 0 10
                          (stable_desc (rows tie_visited_store))))
                  2 1)
  /\ fst (get_stats stable_desc (INT8_MAX + 1) 10
                    (alone tie_visited_store zeros 3000))
     = Raise DataError.
Proof.
  split; [apply rewritten_last_orders|].
  repeat apply conj; try reflexivity.
  vm_compute. discriminate.
Qed.

(** * Further properties of main.py *)

(** ** The constraints of the table under interleaving *)

Lemma substring_length_le n : forall s,
  (String.length (substring 0 n s) <= n)%nat.
Proof.
  induction n as [|n IH]; intros [|c s]; cbn; try lia.
  specialize (IH s). lia.
Qed.

Lemma varchar_length n s c :
  varchar n s = Some c -> (String.length c <= n)%nat.
Proof.
  unfold varchar. destruct (String.length s <=? n)%nat eqn:E.
  - intros [= <-]. now apply Nat.leb_le.
  - destruct (all_spaces _); [|discriminate].
    intros [= <-]. apply substring_length_le.
Qed.

Lemma StronglySorted_snoc {A} (R : A -> A -> Prop) (l : list A) (a : A) :
  StronglySorted R l -> Forall (fun x => R x a) l ->
  StronglySorted R (l ++ [a]).
Proof.
  induction 1 as [|x l Hs IH Hx]; intros Hall; cbn.
  - repeat constructor.
  - apply Forall_cons_iff in Hall as [Hxa Hall].
    constructor; [now apply IH|].
    apply Forall_app. split; [exact Hx | now repeat constructor].
Qed.

(** For a code that fits the column the two plans do the same. *)
Lemma insert_url_map_on_fits p code url t v active st :
  varchar 255 code <> None ->
  insert_url_map_on p code url t v active st
  = insert_url_map code url t v active st.
Proof.
  intros Hfit. unfold insert_url_map, insert_url_map_on.
  destruct p; [reflexivity|].
  destruct (has_nul code); [reflexivity|].
  destruct (varchar 255 code); [reflexivity | congruence].
Qed.

Lemma insert_url_map_store_ok code url t st :
  code <> "" -> store_ok st ->
  store_ok (snd (insert_url_map code url t 0 true st)).
Proof.
  intros Hne (Hu & Hrows & Hsorted & Hids & Hseq).
  unfold insert_url_map, insert_url_map_on.
  destruct (has_nul code); [now repeat split|].
  destruct (varchar 255 code) as [c|] eqn:V; [|now repeat split].
  change (negb (in_int4 0)) with false. cbv iota.
  destruct (INT4_MAX <? url_map_id_seq st + 1) eqn:L; [now repeat split|].
  apply Z.ltb_ge in L.
  assert (Hids' : Forall (fun r => 1 <= url_map.id r <= url_map_id_seq st + 1)
                         (rows st)).
  { eapply Forall_impl; [|exact Hids]. cbn. intros; lia. }
  destruct (existsb (has_short_url c) (rows st)) eqn:E; cbn [snd].
  - unfold store_ok, unique_short_url. cbn [rows url_map_id_seq].
    split; [exact Hu|]. split; [exact Hrows|]. split; [exact Hsorted|].
    split; [exact Hids'|]. lia.
  - apply existsb_has_short_url in E.
    unfold store_ok, unique_short_url. cbn [rows url_map_id_seq].
    split; [|split; [|split; [|split; [|lia]]]].
    + rewrite map_app. cbn. apply NoDup_app; auto.
      * constructor; [intros []|constructor].
      * intros x Hx [<-|[]]. contradiction.
    + apply Forall_app. split; [exact Hrows|].
      constructor; [|constructor]. unfold row_ok. cbn.
      split; [eapply (varchar_nonempty 254); eauto|].
      split; [eapply varchar_length; eauto|].
      unfold INT4_MAX. lia.
    + apply StronglySorted_snoc; [exact Hsorted|].
      eapply Forall_impl; [|exact Hids]. cbn. intros; lia.
    + apply Forall_app. split; [exact Hids'|].
      constructor; [|constructor]. cbn. lia.
Qed.

Lemma sorted_by_id l :
  StronglySorted (fun a b => url_map.id a < url_map.id b) l
  <-> StronglySorted Z.lt (map url_map.id l).
Proof.
  induction l as [|x l IH]; cbn; split; intros H; try constructor;
    apply StronglySorted_inv in H as [Hs Hx].
  - now apply IH.
  - now apply Forall_map.
  - now apply IH.
  - rewrite Forall_map in Hx. exact Hx.
Qed.

Lemma rows_same_store_ok st l :
  store_ok st ->
  map url_map.short_url l = map url_map.short_url (rows st) ->
  map url_map.id l = map url_map.id (rows st) ->
  Forall row_ok l ->
  store_ok (mkStore l (url_map_id_seq st)).
Proof.
  intros (Hu & Hrows & Hsorted & Hids & Hseq) Hc Hi Hok.
  unfold store_ok, unique_short_url. cbn [rows url_map_id_seq].
  split; [now rewrite Hc|]. split; [exact Hok|].
  split; [apply sorted_by_id; rewrite Hi; now apply sorted_by_id|].
  split; [|exact Hseq].
  assert (Hm : Forall (fun i => 1 <= i <= url_map_id_seq st)
                      (map url_map.id l)).
  { rewrite Hi. apply Forall_map. exact Hids. }
  rewrite Forall_map in Hm. exact Hm.
Qed.

Lemma map_id_bump code l :
  map url_map.id (map (bump_visits code) l) = map url_map.id l.
Proof.
  rewrite map_map. apply map_ext. intros r. unfold bump_visits.
  now destruct (has_short_url code r).
Qed.

Lemma map_id_deactivate code l :
  map url_map.id (map (deactivate_row code) l) = map url_map.id l.
Proof.
  rewrite map_map. apply map_ext. intros r. unfold deactivate_row.
  now destruct (has_short_url code r).
Qed.

Lemma update_visits_store_ok code st :
  store_ok st -> store_ok (snd (update_visits code st)).
Proof.
  intros Hok. unfold update_visits.
  destruct (existsb _ _) eqn:E; [exact Hok|]. cbn [snd].
  apply rows_same_store_ok; auto using map_short_url_bump, map_id_bump.
  destruct Hok as (_ & Hrows & _).
  apply Forall_map. rewrite Forall_forall in *. intros r Hr.
  destruct (Hrows r Hr) as (H1 & H2 & H3).
  unfold bump_visits. destruct (has_short_url code r) eqn:Hc; [|now repeat split].
  repeat split; auto; cbn; try lia.
  destruct (INT4_MAX <=? url_map.visits r) eqn:V; [|apply Z.leb_gt in V; lia].
  exfalso. assert (Hex : existsb
    (fun r0 => has_short_url code r0 && (INT4_MAX <=? url_map.visits r0))
    (rows st) = true); [|congruence].
  apply existsb_exists. exists r. now rewrite Hc, V.
Qed.

Lemma update_is_active_false_store_ok code st :
  store_ok st -> store_ok (snd (update_is_active_false code st)).
Proof.
  intros Hok. unfold update_is_active_false. cbn [snd].
  apply rows_same_store_ok;
    auto using map_short_url_deactivate, map_id_deactivate.
  destruct Hok as (_ & Hrows & _).
  apply Forall_map. eapply Forall_impl; [|exact Hrows].
  intros r Hr. unfold deactivate_row. now destruct (has_short_url code r).
Qed.

Lemma guarded_yield w : guarded w -> guarded (yield w).
Proof.
  unfold guarded, yield. intros [Hdb Ho].
  destruct (others w) as [|f rest] eqn:E; [rewrite E; now split|].
  apply Forall_cons_iff in Ho as [Hf Hrest]. cbn. split; auto.
Qed.

Lemma keeps_ret {A} (a : A) : keeps (ret a).
Proof. now intros w. Qed.

Lemma keeps_raise {A} e : keeps (@raise A e).
Proof. now intros w. Qed.

Lemma keeps_bind {A B} (P : A -> Prop) (m : M A) (k : A -> M B) :
  keeps m ->
  (forall w a w', m w = (Return a, w') -> P a) ->
  (forall a, P a -> keeps (k a)) ->
  keeps (bind m k).
Proof.
  intros Hm Hp Hk w Hw. unfold bind. specialize (Hm w Hw).
  destruct (m w) as [[a|e|] w'] eqn:E; cbn in *; auto.
  eapply Hk; eauto.
Qed.

Lemma keeps_await {A} (stmt : Store -> A * Store) :
  (forall st, store_ok st -> store_ok (snd (stmt st))) -> keeps (await stmt).
Proof.
  intros Hs w Hw. rewrite await_run. cbn [snd].
  apply guarded_yield in Hw. destruct Hw as [Hdb Ho].
  split; cbn; auto.
Qed.

Lemma keeps_await_pg {A} (stmt : Store -> (pg_error + A) * Store) :
  (forall st, store_ok st -> store_ok (snd (stmt st))) -> keeps (await_pg stmt).
Proof.
  intros Hs. unfold await_pg.
  apply (keeps_bind (fun _ => True)); auto using keeps_await.
  intros [e|a] _; [apply keeps_raise | apply keeps_ret].
Qed.

Lemma keeps_select code : keeps (await_pg (select_by_short_url code)).
Proof. now apply keeps_await_pg. Qed.

Lemma keeps_generate_short_url n : keeps (generate_short_url n).
Proof.
  intros w Hw. unfold generate_short_url. now rewrite join_choices_run.
Qed.

Lemma keeps_generate_unique fuel : keeps (generate_unique fuel).
Proof.
  induction fuel as [|fuel IH]; [now intros w|]. cbn [generate_unique].
  apply (keeps_bind (fun _ => True)); auto using keeps_generate_short_url.
  intros code _.
  apply (keeps_bind (fun _ => True)); auto using keeps_select.
  intros [r|] _; [exact IH | apply keeps_ret].
Qed.

Lemma keeps_choose_short_url fuel url_data :
  keeps (choose_short_url fuel url_data).
Proof.
  unfold choose_short_url.
  destruct (truthy _); [|apply keeps_generate_unique].
  apply (keeps_bind (fun _ => True)); auto using keeps_select.
  intros [r|] _; [apply keeps_raise | apply keeps_ret].
Qed.

Lemma choose_short_url_nonempty fuel url_data w code w' :
  choose_short_url fuel url_data w = (Return code, w') -> code <> "".
Proof.
  intros H. destruct (truthy (URLCreate.custom_path url_data)) eqn:T.
  - destruct (choose_custom_path fuel url_data T) as (c & _ & Hne & Hrun).
    rewrite Hrun in H.
    destruct (find _ _); [|destruct (has_nul c)]; congruence.
  - rewrite choose_random_path in H by exact T.
    apply generate_unique_returns in H as [Hlen _].
    intros ->. discriminate.
Qed.

Lemma insert_url_map_on_store_ok p code url t st :
  code <> "" -> store_ok st ->
  store_ok (snd (insert_url_map_on p code url t 0 true st)).
Proof.
  intros Hne Hok.
  destruct (varchar 255 code) as [c|] eqn:V.
  - rewrite insert_url_map_on_fits by congruence.
    now apply insert_url_map_store_ok.
  - destruct p; [now apply insert_url_map_store_ok|].
    destruct Hok as (Hu & Hrows & Hsorted & Hids & Hseq).
    unfold insert_url_map_on. rewrite V.
    destruct (has_nul code); [now repeat split|].
    change (negb (in_int4 0)) with false. cbv iota.
    destruct (INT4_MAX <? url_map_id_seq st + 1) eqn:L; [now repeat split|].
    apply Z.ltb_ge in L. cbn [snd].
    unfold store_ok, unique_short_url. cbn [rows url_map_id_seq].
    split; [exact Hu|]. split; [exact Hrows|]. split; [exact Hsorted|].
    split; [|lia].
    eapply Forall_impl; [|exact Hids]. cbn. intros; lia.
Qed.

(** Under either plan of its [INSERT], [create_short_url] keeps the
    constraints of the table. *)
Lemma keeps_create_short_url_on p fuel url_data :
  keeps (create_short_url_on p fuel url_data).
Proof.
  unfold create_short_url_on.
  apply (keeps_bind (fun code => code <> ""));
    eauto using keeps_choose_short_url, choose_short_url_nonempty.
  intros code Hne. unfold insert_mapping_on.
  apply (keeps_bind (fun _ => True)); [now intros w | auto |].
  intros t _. apply (keeps_bind (fun _ => True)); auto using keeps_ret.
  apply keeps_await_pg. intros st. now apply insert_url_map_on_store_ok.
Qed.

Lemma keeps_create_short_url fuel url_data :
  keeps (create_short_url fuel url_data).
Proof. exact (keeps_create_short_url_on CustomPlan fuel url_data). Qed.

(** The plan shows only under a custom code that is too long for the
    column: for every other request [create_short_url] is the same under
    both. *)
Lemma create_short_url_on_fits p fuel url_data w :
  (forall code, URLCreate.custom_path url_data = Some code ->
                varchar 255 code <> None) ->
  create_short_url_on p fuel url_data w = create_short_url fuel url_data w.
Proof.
  intros Hfit. rewrite create_short_url_on_run, create_short_url_run.
  destruct (choose_short_url fuel url_data w) as [[code|e|] w1] eqn:C;
    try reflexivity.
  rewrite insert_mapping_on_run, insert_mapping_run.
  rewrite insert_url_map_on_fits; [reflexivity|].
  destruct (truthy (URLCreate.custom_path url_data)) eqn:T.
  - destruct (choose_custom_path fuel url_data T) as (c & Hc & _ & Hrun).
    rewrite Hrun in C. apply Hfit.
    destruct (find _ _); [discriminate|].
    destruct (has_nul c); [discriminate|].
    assert (c = code) by congruence. subst c. exact Hc.
  - rewrite choose_random_path in C by exact T.
    apply generate_unique_returns in C as [Hlen _].
    unfold varchar. rewrite Hlen. discriminate.
Qed.

Lemma keeps_redirect_to_url code : keeps (redirect_to_url code).
Proof.
  unfold redirect_to_url.
  apply (keeps_bind (fun _ => True)); auto using keeps_select.
  intros [r|] _; [|apply keeps_raise].
  destruct (negb _); [apply keeps_raise|].
  apply (keeps_bind (fun _ => True)); auto using keeps_ret.
  apply keeps_await_pg. intros st. apply update_visits_store_ok.
Qed.

Lemma keeps_get_stats order_by skip limit :
  keeps (get_stats order_by skip limit).
Proof.
  unfold get_stats. destruct (negb _); [apply keeps_raise|].
  destruct (INT8_MAX <? skip); [apply keeps_raise|].
  apply (keeps_bind (fun _ => True)); auto; [now apply keeps_await|].
  intros urls _.
  apply (keeps_bind (fun _ => True)); auto; [now apply keeps_await|].
  intros n _.
  apply (keeps_bind (fun _ => True)); auto using keeps_ret.
  now apply keeps_await.
Qed.

Lemma keeps_deactivate_url code : keeps (deactivate_url code).
Proof.
  unfold deactivate_url.
  apply (keeps_bind (fun _ => True)); auto using keeps_select.
  intros [r|] _; [|apply keeps_raise].
  apply (keeps_bind (fun _ => True)); auto.
  - apply keeps_await. intros st. apply update_is_active_false_store_ok.
  - intros [r'|] _; [apply keeps_ret | apply keeps_raise].
Qed.

Lemma empty_store_ok : store_ok empty_store.
Proof.
  unfold store_ok, unique_short_url, empty_store, INT4_MAX. cbn.
  repeat split; try constructor; lia.
Qed.

Lemma serve_store_ok q st : store_ok st -> store_ok (serve q st).
Proof.
  intros Hok.
  assert (Hw : forall random now, guarded (alone st random now))
    by (intros; split; [exact Hok | constructor]).
  destruct q as [url_data fuel random now|code|code|order_by skip limit];
    cbn [serve].
  - apply keeps_create_short_url, Hw.
  - apply keeps_redirect_to_url, Hw.
  - apply keeps_deactivate_url, Hw.
  - apply keeps_get_stats, Hw.
Qed.

Lemma serve_all_store_ok qs : forall st,
  store_ok st -> store_ok (serve_all qs st).
Proof.
  induction qs as [|q qs IH]; intros st Hok; [exact Hok|].
  rewrite serve_all_cons. now apply IH, serve_store_ok.
Qed.

Lemma reachable_store_ok st : reachable st -> store_ok st.
Proof.
  induction 1; [apply empty_store_ok | now apply serve_store_ok].
Qed.

(** X1.  Each of the four handlers keeps the constraints of [url_map]
    ([short_url] unique, not empty and at most 255 characters, [visits]
    between 0 and the largest [INTEGER], [id] increasing in the order of
    insertion and bounded by the sequence), however it ends and whatever
    other requests do between its statements, as long as they keep the
    constraints too.  Every store the service reaches satisfies them. *)
Theorem handlers_keep_table_constraints :
  (forall fuel url_data, keeps (create_short_url fuel url_data))
  /\ (forall code, keeps (redirect_to_url code))
  /\ (forall order_by skip limit, keeps (get_stats order_by skip limit))
  /\ (forall code, keeps (deactivate_url code))
  /\ (forall st, reachable st -> store_ok st).
Proof.
  repeat apply conj;
    auto using keeps_create_short_url, keeps_redirect_to_url,
               keeps_get_stats, keeps_deactivate_url, reachable_store_ok.
Qed.

Lemma handlers_keep_table_constraints_witness :
  guarded (racing_world "promo1")
  /\ store_ok (db (snd (create_short_url 0
                          (URLCreate.mk example_url (Some "promo1"))
                          (racing_world "promo1")))).
Proof.
  assert (G : guarded (racing_world "promo1")).
  { split; [apply empty_store_ok|].
    constructor; [intros st Hst; exact Hst|].
    constructor; [|constructor].
    intros st. unfold competitor.
    apply insert_url_map_store_ok. discriminate. }
  split; [exact G|].
  exact (proj1 (proj1 handlers_keep_table_constraints 0%nat
                  (URLCreate.mk example_url (Some "promo1"))
                  (racing_world "promo1") G)).
Defined.

(** ** Rows over time *)

Lemma effect_extends (R : Row -> Row -> Prop) st st' :
  (forall r, R r r) ->
  (forall code r, R r (bump_visits code r)) ->
  (forall code r, R r (deactivate_row code r)) ->
  effect st st' ->
  rows_extended R (rows st) (rows st').
Proof.
  intros Hrefl Hbump Hdeact [H|r _ _ _ H _|code r _ _ H|code H]; rewrite H.
  - exists (rows st), []. rewrite app_nil_r. split; auto.
    rewrite <- (map_id (rows st)) at 2. now apply Forall2_same.
  - exists (rows st), [r]. split; auto.
    rewrite <- (map_id (rows st)) at 2. now apply Forall2_same.
  - eexists _, []. rewrite app_nil_r. split; auto. now apply Forall2_same.
  - eexists _, []. rewrite app_nil_r. split; auto. now apply Forall2_same.
Qed.

Lemma rows_extended_trans (R : Row -> Row -> Prop) l1 l2 l3 :
  (forall x y z, R x y -> R y z -> R x z) ->
  rows_extended R l1 l2 -> rows_extended R l2 l3 -> rows_extended R l1 l3.
Proof.
  intros Ht (k1 & c1 & -> & H1) (k2 & c2 & -> & H2).
  apply Forall2_app_inv_l in H2 as (k2a & k2b & Ha & _ & ->).
  exists k2a, (k2b ++ c2)%list. split; [now rewrite app_assoc|].
  eapply Forall2_compose; eauto.
Qed.

Lemma serve_all_extends (R : Row -> Row -> Prop) :
  (forall r, R r r) ->
  (forall x y z, R x y -> R y z -> R x z) ->
  (forall code r, R r (bump_visits code r)) ->
  (forall code r, R r (deactivate_row code r)) ->
  forall qs st, rows_extended R (rows st) (rows (serve_all qs st)).
Proof.
  intros Hrefl Ht Hbump Hdeact. induction qs as [|q qs IH]; intros st.
  - exists (rows st), []. rewrite app_nil_r. split; auto.
    rewrite <- (map_id (rows st)) at 2. now apply Forall2_same.
  - rewrite serve_all_cons.
    eapply rows_extended_trans; [exact Ht| |apply IH].
    apply effect_extends; auto using serve_effect.
Qed.

Lemma row_kept_refl r : row_kept r r.
Proof. unfold row_kept. repeat split; auto. lia. Qed.

Lemma row_kept_trans x y z : row_kept x y -> row_kept y z -> row_kept x z.
Proof.
  unfold row_kept. intros (?&?&?&?&?) (?&?&?&?&?).
  repeat split; try congruence. lia.
Qed.

Lemma row_kept_bump code r : row_kept r (bump_visits code r).
Proof.
  unfold row_kept, bump_visits.
  destruct (has_short_url code r); cbn; repeat split; auto; lia.
Qed.

Lemma row_kept_deactivate code r : row_kept r (deactivate_row code r).
Proof.
  unfold row_kept, deactivate_row.
  destruct (has_short_url code r); cbn; repeat split; auto; lia.
Qed.

(** X2.  Whatever requests are served, in whatever number and order, no
    row is removed and none changes place; [id], [short_url],
    [original_url] and [created_at] of a row stay what they were at its
    insertion, and its [visits] never decreases. *)
Theorem rows_are_kept qs st :
  rows_extended row_kept (rows st) (rows (serve_all qs st)).
Proof.
  apply serve_all_extends;
    auto using row_kept_refl, row_kept_bump, row_kept_deactivate.
  apply row_kept_trans.
Qed.

(** ** Creating under a custom code *)

Lemma create_custom_on_run p fuel url code w :
  code <> "" ->
  create_short_url_on p fuel (URLCreate.mk url (Some code)) w
  = match find (has_short_url code) (rows (db (yield w))) with
    | Some _ => (Raise CodeAlreadyInUse, yield w)
    | None =>
        if has_nul code
        then (Raise (PostgresError CharacterNotInRepertoireError), yield w)
        else insert_mapping_on p code (URLCreate.mk url (Some code)) (yield w)
    end.
Proof.
  intros Hne.
  assert (T : truthy (URLCreate.custom_path (URLCreate.mk url (Some code)))
              = true) by (cbn; now apply negb_true_iff, String.eqb_neq).
  destruct (choose_custom_path fuel _ T) as (c & Hc & _ & Hrun).
  cbn in Hc. injection Hc as <-.
  rewrite create_short_url_on_run, Hrun.
  destruct (find _ _); [reflexivity|]. now destruct (has_nul code).
Qed.

Lemma create_custom_run fuel url code w :
  code <> "" ->
  create_short_url fuel (URLCreate.mk url (Some code)) w
  = match find (has_short_url code) (rows (db (yield w))) with
    | Some _ => (Raise CodeAlreadyInUse, yield w)
    | None =>
        if has_nul code
        then (Raise (PostgresError CharacterNotInRepertoireError), yield w)
        else insert_mapping code (URLCreate.mk url (Some code)) (yield w)
    end.
Proof. exact (create_custom_on_run CustomPlan fuel url code w). Qed.

(** X3.  Served alone, a creation under a custom code that is not empty,
    holds no NUL, has at most 255 characters and is carried by no row
    returns that very code with the URL, the time of the call and
    [visits = 0], and adds exactly one row, active, at the end of the
    table (the sequence behind [id] not being used up). *)
Theorem create_custom_code_free st code url fuel random now :
  code <> "" ->
  has_nul code = false ->
  (String.length code <= 255)%nat ->
  free st code ->
  url_map_id_seq st < INT4_MAX ->
  create_short_url fuel (URLCreate.mk url (Some code)) (alone st random now)
  = (Return (URLResponse.mk code url now 0),
     alone (mkStore (rows st ++ [url_map.mk (url_map_id_seq st + 1) code url
                                            now 0 true])
                    (url_map_id_seq st + 1))
           random now).
Proof.
  intros Hne Hnul Hlen Hfree Hseq.
  rewrite create_custom_run, !yield_alone by (auto; reflexivity).
  cbn [alone db]. unfold free in Hfree. rewrite Hfree, Hnul.
  rewrite insert_mapping_run, yield_alone by reflexivity.
  cbn [alone db utc URLCreate.url].
  now rewrite insert_url_map_free.
Qed.

Lemma create_custom_code_free_witness :
  create_short_url 0 (URLCreate.mk "https://example.com/b" (Some "promo2"))
                   (alone promo_store zeros 2000)
  = (Return (URLResponse.mk "promo2" "https://example.com/b" 2000 0),
     alone (mkStore [promo_row;
                     url_map.mk 2 "promo2" "https://example.com/b" 2000 0 true]
                    2)
           zeros 2000).
Proof.
  refine (create_custom_code_free promo_store "promo2" "https://example.com/b"
            0 zeros 2000 _ eq_refl _ eq_refl eq_refl).
  - discriminate.
  - vm_compute. repeat constructor.
Defined.

Lemma not_longer_free st code :
  Forall (fun r => (String.length (url_map.short_url r) <= 255)%nat)
         (rows st) ->
  (255 < String.length code)%nat ->
  free st code.
Proof.
  intros Hok Hlen. unfold free.
  destruct (find _ _) as [r|] eqn:F; [|reflexivity].
  apply find_in in F as [Hr <-].
  rewrite Forall_forall in Hok. specialize (Hok r Hr). cbn in Hok. lia.
Qed.

(** X4.  The table holding only codes that fit [VARCHAR(255)], a creation
    served alone under a custom code of more than 255 characters, one of
    them beyond the 255th not a space, creates no mapping and is not
    answered with the 400 of a code in use.  It ends in an error of the
    database and leaves every row as it was.  A code with a NUL is
    refused by the lookup.  Otherwise the [INSERT] is refused: with a
    plan made for its values, for the code being too long, the sequence
    untouched; with a plan kept for all values, for the same reason but
    with one value of the sequence spent, or, the sequence being used up,
    for that. *)
Theorem create_custom_code_too_long p st code url fuel random now :
  Forall (fun r => (String.length (url_map.short_url r) <= 255)%nat)
         (rows st) ->
  (255 < String.length code)%nat ->
  all_spaces (substring 255 (String.length code - 255) code) = false ->
  create_short_url_on p fuel (URLCreate.mk url (Some code))
                      (alone st random now)
  = if has_nul code
    then (Raise (PostgresError CharacterNotInRepertoireError),
          alone st random now)
    else match p with
         | CustomPlan =>
             (Raise (PostgresError StringDataRightTruncationError),
              alone st random now)
         | GenericPlan =>
             if INT4_MAX <? url_map_id_seq st + 1
             then (Raise (PostgresError SequenceGeneratorLimitExceededError),
                   alone st random now)
             else (Raise (PostgresError StringDataRightTruncationError),
                   alone (mkStore (rows st) (url_map_id_seq st + 1))
                         random now)
         end.
Proof.
  intros Hfit Hlen Hsp.
  assert (Hne : code <> "") by (intros ->; cbn in Hlen; lia).
  assert (Hfree : free st code) by now apply not_longer_free.
  rewrite create_custom_on_run, !yield_alone by (auto; reflexivity).
  cbn [alone db]. unfold free in Hfree. rewrite Hfree.
  destruct (has_nul code) eqn:N; [reflexivity|].
  rewrite insert_mapping_on_run, yield_alone by reflexivity.
  cbn [alone db utc URLCreate.url].
  unfold insert_url_map_on, varchar.
  apply Nat.leb_gt in Hlen. rewrite N, Hlen, Hsp.
  destruct p; [reflexivity|].
  change (negb (in_int4 0)) with false. cbv iota.
  destruct (INT4_MAX <? url_map_id_seq st + 1); reflexivity.
Qed.

Lemma create_custom_code_too_long_witness :
  create_short_url_on CustomPlan 0 (URLCreate.mk example_url (Some long_code))
                      (alone promo_store zeros 2000)
  = (Raise (PostgresError StringDataRightTruncationError),
     alone promo_store zeros 2000)
  /\ create_short_url_on GenericPlan 0
                         (URLCreate.mk example_url (Some long_code))
                         (alone promo_store zeros 2000)
     = (Raise (PostgresError StringDataRightTruncationError),
        alone (mkStore (rows promo_store) 2) zeros 2000).
Proof.
  split.
  - refine (create_custom_code_too_long CustomPlan promo_store long_code
              example_url 0 zeros 2000 _ _ eq_refl).
    + unfold promo_store. repeat constructor.
    + vm_compute. repeat constructor.
  - refine (create_custom_code_too_long GenericPlan promo_store long_code
              example_url 0 zeros 2000 _ _ eq_refl).
    + unfold promo_store. repeat constructor.
    + vm_compute. repeat constructor.
Defined.

(** ** Creating, then resolving *)

Lemma find_snoc_fresh code l r :
  ~ In code (map url_map.short_url l) ->
  url_map.short_url r = code ->
  find (has_short_url code) (l ++ [r]) = Some r.
Proof.
  intros Hfresh Hr. apply existsb_has_short_url in Hfresh.
  induction l as [|x l IH]; cbn in *.
  - apply has_short_url_true in Hr. now rewrite Hr.
  - apply orb_false_iff in Hfresh as [Hx Hl]. rewrite Hx. now apply IH.
Qed.

Lemma bump_fresh code l :
  ~ In code (map url_map.short_url l) -> map (bump_visits code) l = l.
Proof.
  intros Hfresh. apply map_fixed. intros x Hx. unfold bump_visits.
  destruct (has_short_url code x) eqn:E; [|reflexivity].
  exfalso. apply Hfresh. apply has_short_url_true in E. rewrite <- E.
  now apply in_map.
Qed.

Lemma redirect_alone_run code st random now r :
  find (has_short_url code) (rows st) = Some r ->
  url_map.is_active r = true ->
  (forall x, In x (rows st) -> url_map.short_url x = code ->
             url_map.visits x < INT4_MAX) ->
  redirect_to_url code (alone st random now)
  = (Return (mkRedirect (url_map.original_url r) 307),
     alone (mkStore (map (bump_visits code) (rows st)) (url_map_id_seq st))
           random now).
Proof.
  intros F A V.
  rewrite redirect_to_url_run, !yield_alone by reflexivity.
  cbn [alone db]. now rewrite F, A, update_visits_below.
Qed.

(** X5.  A creation that returns, served alone, leaves its mapping where
    the next resolution of the returned code finds it: that resolution
    redirects with status 307 to the URL given at creation and counts the
    first visit of the new row, every older row staying as it was. *)
Theorem create_then_redirect fuel url_data st random now resp w1 :
  create_short_url fuel url_data (alone st random now) = (Return resp, w1) ->
  forall random' now',
  exists r,
    rows (db w1) = (rows st ++ [r])%list
    /\ to_response r = resp
    /\ redirect_to_url (URLResponse.short_url resp) (alone (db w1) random' now')
       = (Return (mkRedirect (URLCreate.url url_data) 307),
          alone (mkStore (rows st ++ [url_map.set_visits 1 r])
                         (url_map_id_seq (db w1)))
                random' now').
Proof.
  intros H random' now'. rewrite create_short_url_run in H.
  destruct (choose_short_url fuel url_data (alone st random now))
    as [[code|e|] w0] eqn:C; try discriminate.
  destruct (choose_short_url_alone fuel url_data (alone st random now) _ _
              eq_refl C) as (Hdb & Hq & _ & _).
  rewrite insert_mapping_run, yield_alone in H by exact Hq.
  rewrite Hdb in H. cbn [alone db] in H.
  destruct (insert_url_map _ _ _ _ _ _) as [[e|r] st'] eqn:I; [discriminate|].
  injection H as <- <-. cbn [set_db db].
  apply insert_url_map_ok in I as (c & _ & Hr & Hrows & Hfresh).
  exists r. split; [exact Hrows|]. split; [reflexivity|].
  assert (Hc : url_map.short_url r = c) by now subst r.
  assert (Hu : url_map.original_url r = URLCreate.url url_data) by now subst r.
  assert (Hv : url_map.visits r = 0) by now subst r.
  assert (Ha : url_map.is_active r = true) by now subst r.
  cbn [to_response URLResponse.short_url]. rewrite Hc.
  rewrite (redirect_alone_run c st' random' now' r).
  - rewrite Hu, Hrows, map_app, bump_fresh by exact Hfresh. cbn [map].
    unfold bump_visits. apply has_short_url_true in Hc. now rewrite Hc, Hv.
  - rewrite Hrows. now apply find_snoc_fresh.
  - exact Ha.
  - rewrite Hrows. intros x Hx Hxc.
    apply in_app_or in Hx as [Hx|[<-|[]]].
    + exfalso. apply Hfresh. rewrite <- Hxc. now apply in_map.
    + rewrite Hv. reflexivity.
Qed.

Lemma create_then_redirect_witness :
  exists r,
    rows (mkStore [url_map.mk 1 "aaaaaa" example_url 2000 0 true] 1)
    = (rows empty_store ++ [r])%list
    /\ to_response r = URLResponse.mk "aaaaaa" example_url 2000 0
    /\ redirect_to_url "aaaaaa"
         (alone (mkStore [url_map.mk 1 "aaaaaa" example_url 2000 0 true] 1)
                zeros 3000)
       = (Return (mkRedirect example_url 307),
          alone (mkStore (rows empty_store ++ [url_map.set_visits 1 r]) 1)
                zeros 3000).
Proof.
  exact (create_then_redirect 1 (URLCreate.mk example_url None) empty_store
           zeros 2000 (URLResponse.mk "aaaaaa" example_url 2000 0)
           (mkWorld (mkStore [url_map.mk 1 "aaaaaa" example_url 2000 0 true] 1)
                    [] zeros 6 2000)
           eq_refl zeros 3000).
Defined.

(** ** Counting visits *)

Lemma find_map_same code (f : Row -> Row) l :
  (forall x, has_short_url code (f x) = has_short_url code x) ->
  find (has_short_url code) (map f l)
  = option_map f (find (has_short_url code) l).
Proof.
  intros Hf. induction l as [|x l IH]; cbn; [reflexivity|].
  rewrite Hf. now destruct (has_short_url code x).
Qed.

Lemma add_visits_bump code n x :
  add_visits code n (bump_visits code x) = add_visits code (1 + n) x.
Proof.
  unfold add_visits, bump_visits.
  destruct (has_short_url code x) eqn:E; [|now rewrite E].
  unfold has_short_url in *. cbn [url_map.set_visits url_map.short_url].
  rewrite E. unfold url_map.set_visits.
  cbn [url_map.id url_map.short_url url_map.original_url url_map.created_at
       url_map.visits url_map.is_active].
  f_equal. lia.
Qed.

Lemma add_visits_0 code x : add_visits code 0 x = x.
Proof.
  unfold add_visits. destruct (has_short_url code x); [|reflexivity].
  destruct x; unfold url_map.set_visits; cbn. f_equal. lia.
Qed.

Lemma has_short_url_add_visits code code' n x :
  has_short_url code (add_visits code' n x) = has_short_url code x.
Proof. unfold add_visits. now destruct (has_short_url code' x). Qed.

Lemma redirects_run code n : forall st r,
  find (has_short_url code) (rows st) = Some r ->
  url_map.is_active r = true ->
  (forall x, In x (rows st) -> url_map.short_url x = code ->
             url_map.visits x + Z.of_nat n <= INT4_MAX) ->
  serve_all (repeat (ResolveAndCount code) n) st
  = mkStore (map (add_visits code (Z.of_nat n)) (rows st)) (url_map_id_seq st).
Proof.
  induction n as [|n IH]; intros st r F A V.
  - cbn [repeat serve_all fold_left Z.of_nat].
    rewrite map_fixed by (intros; apply add_visits_0). now destruct st.
  - cbn [repeat]. rewrite serve_all_cons. cbn [serve]. unfold quiet.
    rewrite (redirect_alone_run code st _ _ r F A)
      by (intros x Hx Hc; specialize (V x Hx Hc); lia).
    cbn [snd alone db].
    rewrite (IH _ (bump_visits code r)); cbn [rows url_map_id_seq].
    + f_equal. rewrite map_map. apply map_ext. intros x.
      rewrite add_visits_bump. f_equal. lia.
    + rewrite find_map_same by (intros; apply has_short_url_bump).
      now rewrite F.
    + unfold bump_visits. now destruct (has_short_url code r).
    + intros x Hx Hc. apply in_map_iff in Hx as (x0 & <- & Hx0).
      assert (Hc0 : url_map.short_url x0 = code).
      { apply has_short_url_true. rewrite <- has_short_url_bump with (code' := code).
        now apply has_short_url_true. }
      specialize (V x0 Hx0 Hc0). unfold bump_visits.
      apply has_short_url_true in Hc0. rewrite Hc0. cbn. lia.
Qed.

(** X6.  With the code unique in the table, active, and room left in its
    counter, [n] resolutions served one after the other each redirect to
    the same URL, and afterwards the counter of that code is exactly [n]
    higher while every other row is as before. *)
Theorem redirects_accumulate st code r n :
  unique_short_url st ->
  find (has_short_url code) (rows st) = Some r ->
  url_map.is_active r = true ->
  url_map.visits r + Z.of_nat n <= INT4_MAX ->
  serve_all (repeat (ResolveAndCount code) n) st
  = mkStore (map (add_visits code (Z.of_nat n)) (rows st)) (url_map_id_seq st)
  /\ forall k random now, (k < n)%nat ->
       fst (redirect_to_url code
              (alone (serve_all (repeat (ResolveAndCount code) k) st) random now))
       = Return (mkRedirect (url_map.original_url r) 307).
Proof.
  intros Hu F A V.
  assert (Hall : forall k, (k <= n)%nat ->
            forall x, In x (rows st) -> url_map.short_url x = code ->
                      url_map.visits x + Z.of_nat k <= INT4_MAX).
  { intros k Hk x Hx Hc. apply find_in in F as [Hr Hrc].
    rewrite (NoDup_map_eq url_map.short_url (rows st) x r Hu Hx Hr)
      by congruence. lia. }
  split; [eapply redirects_run; eauto|].
  intros k random now Hk.
  rewrite (redirects_run code k st r F A) by (apply Hall; lia).
  rewrite (redirect_alone_run code _ random now (add_visits code (Z.of_nat k) r)).
  - cbn [fst]. unfold add_visits. now destruct (has_short_url code r).
  - cbn [rows]. rewrite find_map_same, F; [reflexivity|].
    intros x. apply has_short_url_add_visits.
  - unfold add_visits. now destruct (has_short_url code r).
  - cbn [rows]. intros x Hx Hc. apply in_map_iff in Hx as (x0 & <- & Hx0).
    unfold add_visits in *.
    destruct (has_short_url code x0) eqn:E.
    + apply has_short_url_true in E. cbn.
      specialize (Hall n (le_n n) x0 Hx0 E). lia.
    + apply has_short_url_false in E. contradiction.
Qed.

Lemma redirects_accumulate_witness :
  serve_all (repeat (ResolveAndCount "aaaaaa") 3) aaaaaa_store
  = mkStore [url_map.mk 1 "aaaaaa" example_url 1000 3 true] 1.
Proof.
  refine (proj1 (redirects_accumulate aaaaaa_store "aaaaaa"
                   (url_map.mk 1 "aaaaaa" example_url 1000 0 true) 3
                   _ eq_refl eq_refl _)).
  - vm_compute. repeat constructor. intros [].
  - vm_compute. discriminate.
Defined.

(** X7.  When the counter of an active mapping has reached the largest
    [INTEGER], a resolution of its code does not redirect: the [UPDATE]
    is refused, the call ends in the database's out-of-range error, and
    nothing is changed. *)
Theorem redirect_counter_full st code r random now :
  find (has_short_url code) (rows st) = Some r ->
  url_map.is_active r = true ->
  url_map.visits r = INT4_MAX ->
  redirect_to_url code (alone st random now)
  = (Raise (PostgresError NumericValueOutOfRangeError), alone st random now).
Proof.
  intros F A V.
  rewrite redirect_to_url_run, !yield_alone by reflexivity.
  cbn [alone db]. rewrite F, A. unfold update_visits.
  assert (E : existsb (fun x => has_short_url code x
                                && (INT4_MAX <=? url_map.visits x))
                      (rows st) = true).
  { apply existsb_exists. exists r. apply find_in in F as [Hr Hc].
    split; [exact Hr|]. apply has_short_url_true in Hc.
    rewrite Hc, V. reflexivity. }
  now rewrite E.
Qed.

Lemma redirect_counter_full_witness :
  redirect_to_url "aaaaaa" (alone full_counter_store zeros 3000)
  = (Raise (PostgresError NumericValueOutOfRangeError),
     alone full_counter_store zeros 3000).
Proof.
  exact (redirect_counter_full full_counter_store "aaaaaa"
           (url_map.mk 1 "aaaaaa" example_url 1000 INT4_MAX true)
           zeros 3000 eq_refl eq_refl eq_refl).
Defined.

(** ** Deactivating *)

Lemma unique_find_split (g : Row -> Row) code l r :
  (forall x, has_short_url code x = false -> g x = x) ->
  NoDup (map url_map.short_url l) ->
  find (has_short_url code) l = Some r ->
  exists l1 l2 : list Row,
    l = (l1 ++ r :: l2)%list /\ map g l = (l1 ++ g r :: l2)%list.
Proof.
  intros Hg. induction l as [|x l IH]; cbn; intros Hnd F; [discriminate|].
  apply NoDup_cons_iff in Hnd as [Hx Hnd].
  destruct (has_short_url code x) eqn:E.
  - injection F as <-. exists [], l. split; [reflexivity|]. cbn. f_equal.
    apply map_fixed. intros y Hy. apply Hg.
    destruct (has_short_url code y) eqn:Ey; [|reflexivity].
    exfalso. apply Hx. apply has_short_url_true in E, Ey.
    rewrite E, <- Ey. now apply in_map.
  - destruct (IH Hnd F) as (l1 & l2 & -> & Hm).
    exists (x :: l1), l2. split; [reflexivity|]. cbn.
    now rewrite Hm, (Hg x E).
Qed.

(** X8.  With [short_url] unique, [deactivate_url] served alone either
    finds no row and changes nothing, raising the 404, or for a code with
    a NUL the database's refusal of it; or it returns the mapping it
    found (with its current [visits]) and leaves the table as it was
    except that this one row has [is_active] false. *)
Theorem deactivate_changes_one_flag st code random now :
  unique_short_url st ->
  match find (has_short_url code) (rows st) with
  | None =>
      deactivate_url code (alone st random now)
      = (Raise (if has_nul code
                then PostgresError CharacterNotInRepertoireError
                else NotFound),
         alone st random now)
  | Some r =>
      exists l1 l2 : list Row,
        rows st = (l1 ++ r :: l2)%list
        /\ deactivate_url code (alone st random now)
           = (Return (to_response r),
              alone (mkStore (l1 ++ url_map.set_is_active false r :: l2)
                             (url_map_id_seq st))
                    random now)
  end.
Proof.
  intros Hu. rewrite deactivate_url_run, !yield_alone by reflexivity.
  cbn [alone db].
  destruct (find _ _) as [r|] eqn:F; [|now destruct (has_nul code)].
  assert (Hg : forall x, has_short_url code x = false ->
                         deactivate_row code x = x)
    by (intros x E; unfold deactivate_row; now rewrite E).
  destruct (unique_find_split (deactivate_row code) code _ r Hg Hu F)
    as (l1 & l2 & Hrows & Hmap).
  exists l1, l2. split; [exact Hrows|]. cbv zeta.
  rewrite find_map_same, F by (intros; apply has_short_url_deactivate).
  cbn [option_map]. rewrite Hmap.
  apply find_in in F as [_ Hc]. apply has_short_url_true in Hc.
  unfold deactivate_row. now rewrite Hc.
Qed.

Lemma deactivate_changes_one_flag_witness :
  exists l1 l2 : list Row,
    rows visited_store
    = (l1 ++ url_map.mk 1 "aaaaaa" example_url 1000 2 true :: l2)%list
    /\ deactivate_url "aaaaaa" (alone visited_store zeros 3000)
       = (Return (URLResponse.mk "aaaaaa" example_url 1000 2),
          alone (mkStore (l1 ++ url_map.mk 1 "aaaaaa" example_url 1000 2 false
                             :: l2) 1)
                zeros 3000).
Proof.
  refine (deactivate_changes_one_flag visited_store "aaaaaa" zeros 3000 _).
  vm_compute. repeat constructor. intros [].
Defined.

Lemma deactivate_row_twice code x :
  deactivate_row code (deactivate_row code x) = deactivate_row code x.
Proof.
  unfold deactivate_row. destruct (has_short_url code x) eqn:E.
  - change (has_short_url code (url_map.set_is_active false x))
      with (has_short_url code x). now rewrite E.
  - now rewrite E.
Qed.

Lemma to_response_deactivate code r :
  to_response (deactivate_row code r) = to_response r.
Proof. unfold deactivate_row. now destruct (has_short_url code r). Qed.

Lemma deactivate_alone_run code st random now :
  deactivate_url code (alone st random now)
  = match find (has_short_url code) (rows st) with
    | None =>
        (Raise (if has_nul code
                then PostgresError CharacterNotInRepertoireError
                else NotFound),
         alone st random now)
    | Some r =>
        (Return (to_response r),
         alone (mkStore (map (deactivate_row code) (rows st))
                        (url_map_id_seq st)) random now)
    end.
Proof.
  rewrite deactivate_url_run, !yield_alone by reflexivity. cbn [alone db].
  destruct (find _ _) as [r|] eqn:F; [|now destruct (has_nul code)].
  cbv zeta.
  rewrite find_map_same, F by (intros; apply has_short_url_deactivate).
  cbn [option_map]. now rewrite to_response_deactivate.
Qed.

(** X9.  [deactivate_url] is idempotent on every store: served twice in
    a row it leaves the store the first call left, and the second call
    answers what the first answered. *)
Theorem deactivate_twice code st :
  serve (Deactivate code) (serve (Deactivate code) st)
  = serve (Deactivate code) st
  /\ fst (deactivate_url code (quiet (serve (Deactivate code) st)))
     = fst (deactivate_url code (quiet st)).
Proof.
  cbn [serve]. unfold quiet. rewrite (deactivate_alone_run code st).
  destruct (find (has_short_url code) (rows st)) as [r|] eqn:F;
    cbn [snd fst alone db]; rewrite deactivate_alone_run; cbn [rows].
  - rewrite find_map_same, F by (intros; apply has_short_url_deactivate).
    cbn [option_map snd fst alone db url_map_id_seq].
    rewrite to_response_deactivate, map_map.
    rewrite (map_ext _ (deactivate_row code))
      by (intros; apply deactivate_row_twice).
    split; reflexivity.
  - rewrite F. split; reflexivity.
Qed.

(** ** Codes are not given out twice *)

Lemma rows_extended_codes R l l' code :
  (forall r r', R r r' -> url_map.short_url r' = url_map.short_url r) ->
  rows_extended R l l' ->
  In code (map url_map.short_url l) -> In code (map url_map.short_url l').
Proof.
  intros HR (kept & created & -> & H) Hin.
  rewrite map_app. apply in_or_app. left.
  induction H as [|x y l k Hxy H IH]; cbn in *; [contradiction|].
  destruct Hin as [<-|Hin]; [left; now apply HR | right; auto].
Qed.

(** X10.  A code that a row carries stays in use for good: after any
    sequence of requests, deactivations among them, a creation under
    that custom code raises the 400 and changes nothing. *)
Theorem code_is_never_given_again st code qs fuel url random now :
  code <> "" ->
  In code (map url_map.short_url (rows st)) ->
  create_short_url fuel (URLCreate.mk url (Some code))
                   (alone (serve_all qs st) random now)
  = (Raise CodeAlreadyInUse, alone (serve_all qs st) random now).
Proof.
  intros Hne Hin.
  assert (Hin' : In code (map url_map.short_url (rows (serve_all qs st)))).
  { eapply rows_extended_codes; [|apply (serve_all_flags qs st)|exact Hin].
    now intros r r' (_ & H & _). }
  rewrite create_custom_run, !yield_alone by (auto; reflexivity).
  cbn [alone db].
  destruct (find _ _) eqn:F; [reflexivity|].
  apply find_has_short_url_none, existsb_has_short_url in F. contradiction.
Qed.

Lemma code_is_never_given_again_witness :
  create_short_url 0 (URLCreate.mk "https://example.com/b" (Some "aaaaaa"))
    (alone (serve_all [ResolveAndCount "aaaaaa"; Deactivate "aaaaaa";
                       CreateMapping (URLCreate.mk example_url None) 3 zeros 4000]
              aaaaaa_store) zeros 5000)
  = (Raise CodeAlreadyInUse,
     alone (serve_all [ResolveAndCount "aaaaaa"; Deactivate "aaaaaa";
                       CreateMapping (URLCreate.mk example_url None) 3 zeros 4000]
              aaaaaa_store) zeros 5000).
Proof.
  refine (code_is_never_given_again aaaaaa_store "aaaaaa"
            [ResolveAndCount "aaaaaa"; Deactivate "aaaaaa";
             CreateMapping (URLCreate.mk example_url None) 3 zeros 4000]
            0 "https://example.com/b" zeros 5000 _ _).
  - discriminate.
  - left. reflexivity.
Defined.

(** ** Totals and pages *)

Lemma sum_visits_app l1 l2 :
  sum_visits (l1 ++ l2) = sum_visits l1 + sum_visits l2.
Proof.
  unfold sum_visits. induction l1 as [|x l1 IH]; cbn; [reflexivity|].
  rewrite IH. lia.
Qed.

Lemma total_visits_of_sum st : total_visits_of st = sum_visits (rows st).
Proof.
  unfold total_visits_of, select_sum_visits. cbn.
  now destruct (rows st).
Qed.

Lemma sum_visits_deactivate code l :
  sum_visits (map (deactivate_row code) l) = sum_visits l.
Proof.
  unfold sum_visits. induction l as [|x l IH]; cbn; [reflexivity|].
  rewrite IH. unfold deactivate_row. now destruct (has_short_url code x).
Qed.

Lemma sum_visits_bump code l r :
  NoDup (map url_map.short_url l) ->
  find (has_short_url code) l = Some r ->
  sum_visits (map (bump_visits code) l) = sum_visits l + 1.
Proof.
  intros Hu F.
  assert (Hg : forall x, has_short_url code x = false -> bump_visits code x = x)
    by (intros x E; unfold bump_visits; now rewrite E).
  destruct (unique_find_split (bump_visits code) code l r Hg Hu F)
    as (l1 & l2 & -> & ->).
  rewrite !sum_visits_app.
  change (sum_visits (bump_visits code r :: l2))
    with (url_map.visits (bump_visits code r) + sum_visits l2).
  change (sum_visits (r :: l2)) with (url_map.visits r + sum_visits l2).
  assert (E : has_short_url code r = true).
  { destruct (find_in code (l1 ++ r :: l2) r F) as [_ Hc].
    now apply has_short_url_true. }
  unfold bump_visits. rewrite E. cbn [url_map.set_visits url_map.visits]. lia.
Qed.

(** X11.  With [short_url] unique, a request served alone moves the totals
    that [get_stats] reports in one way only: [total_urls] grows by one
    exactly when the request is a creation that returns, [total_visits]
    grows by one exactly when it is a resolution that returns, and
    nothing else changes either of them; deactivating takes neither a
    mapping nor its visits out of the totals. *)
Theorem totals_follow_requests q st :
  unique_short_url st ->
  total_urls_of (serve q st) = total_urls_of st + mappings_added q st
  /\ total_visits_of (serve q st) = total_visits_of st + visits_added q st.
Proof.
  intros Hu. rewrite !total_visits_of_sum. unfold total_urls_of, select_count.
  cbn [fst].
  destruct q as [url_data fuel random now|code|code|order_by skip limit];
    cbn [serve mappings_added visits_added].
  - rewrite create_short_url_run.
    destruct (choose_short_url fuel url_data (alone st random now))
      as [[c|e|] w0] eqn:C;
      destruct (choose_short_url_alone fuel url_data (alone st random now) _ _
                  eq_refl C) as (Hdb & Hq & _ & _);
      cbn [fst snd returns]; try (rewrite Hdb; cbn [alone db]; split; lia).
    rewrite insert_mapping_run, yield_alone, Hdb by exact Hq. cbn [alone db].
    destruct (insert_url_map _ _ _ _ _ _) as [[e|r] st'] eqn:I;
      cbn [fst snd returns set_db db].
    + apply insert_url_map_rejected in I. rewrite I. split; lia.
    + apply insert_url_map_ok in I as (c' & _ & Hr & Hrows & _).
      rewrite Hrows, length_app, sum_visits_app. subst r. cbn. split; lia.
  - unfold quiet. rewrite redirect_to_url_run, !yield_alone by reflexivity.
    cbn [alone db].
    destruct (find _ _) as [r|] eqn:F; cbn [fst snd returns alone db];
      [|destruct (has_nul code); cbn [fst snd returns alone db]; split; lia].
    destruct (url_map.is_active r); cbn [fst snd returns alone db];
      [|split; lia].
    destruct (update_visits code st) as [[e|u] st'] eqn:U;
      cbn [fst snd returns set_db db].
    + unfold update_visits in U. destruct (existsb _ _); [|discriminate].
      injection U as _ <-. split; lia.
    + apply update_visits_ok in U. rewrite U, length_map.
      rewrite (sum_visits_bump code _ r Hu F). split; lia.
  - unfold quiet. rewrite deactivate_alone_run.
    destruct (find _ _); cbn [snd alone db rows]; [|split; lia].
    rewrite length_map, sum_visits_deactivate. split; lia.
  - rewrite get_stats_db by reflexivity. cbn [quiet alone db]. split; lia.
Qed.

Lemma totals_follow_requests_witness :
  total_urls_of (serve (ResolveAndCount "aaaaaa") aaaaaa_store)
  = total_urls_of aaaaaa_store + 0
  /\ total_visits_of (serve (ResolveAndCount "aaaaaa") aaaaaa_store)
     = total_visits_of aaaaaa_store + 1.
Proof.
  refine (totals_follow_requests (ResolveAndCount "aaaaaa") aaaaaa_store _).
  vm_compute. repeat constructor. intros [].
Defined.

Lemma firstn_add {A} a b (l : list A) :
  firstn (a + b) l = (firstn a l ++ firstn b (skipn a l))%list.
Proof.
  revert l. induction a as [|a IH]; intros [|x l]; cbn;
    try reflexivity.
  - now rewrite firstn_nil.
  - now rewrite IH.
Qed.

Lemma offset_limit_add skip a b l :
  0 <= skip -> 0 <= a -> 0 <= b ->
  offset_limit skip (a + b) l
  = (offset_limit skip a l ++ offset_limit (skip + a) b l)%list.
Proof.
  intros Hs Ha Hb. unfold offset_limit.
  rewrite !Z2Nat.inj_add by lia. rewrite firstn_add, skipn_skipn.
  now rewrite (Nat.add_comm (Z.to_nat a)).
Qed.

Lemma offset_limit_length skip limit l :
  0 <= skip -> 0 <= limit ->
  Z.of_nat (List.length (offset_limit skip limit l))
  = Z.max 0 (Z.min limit (Z.of_nat (List.length l) - skip)).
Proof.
  intros Hs Hl. unfold offset_limit.
  rewrite length_firstn, length_skipn. lia.
Qed.

(** X12.  Served alone on the same table and with the same ordering,
    and for offsets that fit a [bigint] ([skip + a < 2^63]),
    [get_stats] pages fit together: the page of [a] entries from [skip]
    followed by the page of [b] entries from [skip + a] is the page of
    [a + b] entries from [skip], so paging neither drops nor repeats a
    mapping; a page holds [limit] entries or, near the end, the
    [total_urls - skip] that are left, none beyond the end; and every
    page reports the same totals. *)
Theorem get_stats_pages_fit order_by st random now skip a b :
  orders_by_created_at_desc order_by ->
  0 <= skip ->
  skip + a <= INT8_MAX ->
  1 <= a ->
  1 <= b ->
  a + b <= 100 ->
  exists (p1 p2 : list URLResponse.t) (n v : Z),
    get_stats order_by skip a (alone st random now)
    = (Return (URLStats.mk p1 n v), alone st random now)
    /\ get_stats order_by (skip + a) b (alone st random now)
       = (Return (URLStats.mk p2 n v), alone st random now)
    /\ get_stats order_by skip (a + b) (alone st random now)
       = (Return (URLStats.mk (p1 ++ p2) n v), alone st random now)
    /\ Z.of_nat (List.length p1) = Z.max 0 (Z.min a (n - skip)).
Proof.
  intros Ho Hs Hs8 Ha Hb Hab.
  eexists _, _, _, _.
  rewrite !get_stats_run, !yield_alone by (try lia; reflexivity).
  cbn [alone db].
  split; [reflexivity|]. split; [reflexivity|].
  split; [now rewrite offset_limit_add, map_app by lia|].
  rewrite length_map, offset_limit_length by lia.
  destruct (Ho (rows st)) as [Hp _].
  now rewrite <- (Permutation_length Hp).
Qed.

Lemma get_stats_pages_fit_witness :
  exists (p1 p2 : list URLResponse.t) (n v : Z),
    get_stats stable_desc 0 1 (alone tie_store zeros 3000)
    = (Return (URLStats.mk p1 n v), alone tie_store zeros 3000)
    /\ get_stats stable_desc (0 + 1) 1 (alone tie_store zeros 3000)
       = (Return (URLStats.mk p2 n v), alone tie_store zeros 3000)
    /\ get_stats stable_desc 0 (1 + 1) (alone tie_store zeros 3000)
       = (Return (URLStats.mk (p1 ++ p2) n v), alone tie_store zeros 3000)
    /\ Z.of_nat (List.length p1) = Z.max 0 (Z.min 1 (n - 0)).
Proof.
  refine (get_stats_pages_fit stable_desc tie_store zeros 3000 0 1 1
            stable_desc_orders _ _ _ _ _); unfold INT8_MAX; lia.
Defined.

(** ** The codes [generate_short_url] can produce *)

Lemma index_of_get c s :
  In c (list_ascii_of_string s) ->
  (index_of c s < String.length s)%nat
  /\ String.get (index_of c s) s = Some c.
Proof.
  induction s as [|a s IH]; cbn; [contradiction|].
  intros Hin. destruct (Ascii.eqb a c) eqn:E.
  - apply Ascii.eqb_eq in E. subst. split; [lia | reflexivity].
  - destruct Hin as [->|Hin]; [now rewrite Ascii.eqb_refl in E|].
    destruct (IH Hin). split; [lia | assumption].
Qed.

Lemma choice_of_index_of c :
  in_chars c -> choice_of chars (index_of c chars) = c.
Proof.
  intros Hin. destruct (index_of_get c chars Hin) as [Hlt Hget].
  unfold choice_of. now rewrite Nat.mod_small, Hget.
Qed.

Lemma code_from_shift random n : forall from,
  code_from (fun i => random (S i)) from n = code_from random (S from) n.
Proof.
  induction n as [|n IH]; intros from; cbn; [reflexivity|]. now rewrite IH.
Qed.

Lemma code_from_draws_for code :
  Forall in_chars (list_ascii_of_string code) ->
  code_from (draws_for code) 0 (String.length code) = code.
Proof.
  induction code as [|c rest IH]; cbn [list_ascii_of_string]; intros H;
    [reflexivity|].
  apply Forall_cons_iff in H as [Hc Hrest].
  cbn [String.length code_from draws_for].
  rewrite choice_of_index_of by exact Hc. f_equal.
  rewrite <- code_from_shift. cbn [draws_for]. now apply IH.
Qed.

(** X13.  [generate_short_url(n)] always returns, with a string of
    exactly [n] characters, each a letter or a digit, for which it used
    [n] draws and touched neither the table nor the clock; and every
    string of [n] letters and digits is returned for some draws, so the
    codes it can produce are all of them and nothing else. *)
Theorem generate_short_url_codes n :
  (forall w,
      exists code,
        generate_short_url n w = (Return code, advance n w)
        /\ String.length code = n
        /\ Forall (fun c => is_alnum c = true) (list_ascii_of_string code))
  /\ (forall code st now,
        String.length code = n ->
        Forall (fun c => is_alnum c = true) (list_ascii_of_string code) ->
        exists random,
          fst (generate_short_url n (alone st random now)) = Return code).
Proof.
  split.
  - intros w. exists (code_from (rng w) (drawn w) n).
    unfold generate_short_url. rewrite join_choices_run.
    split; [reflexivity|]. split; [apply code_from_length|].
    eapply Forall_impl; [|apply code_from_in_chars].
    intros c. apply in_chars_alnum.
  - intros code st now <- Hall. exists (draws_for code).
    unfold generate_short_url. rewrite join_choices_run. cbn [fst alone rng drawn].
    f_equal. apply code_from_draws_for.
    eapply Forall_impl; [|exact Hall]. intros c. apply in_chars_alnum.
Qed.

Lemma generate_short_url_codes_witness :
  exists random,
    fst (generate_short_url 6 (alone empty_store random 0)) = Return "Zx9a0B".
Proof.
  refine (proj2 (generate_short_url_codes 6) "Zx9a0B" empty_store 0 eq_refl _).
  repeat constructor.
Defined.

(** ** The test script *)

Lemma create_random_run st random now url_data k fuel :
  truthy (URLCreate.custom_path url_data) = false ->
  (forall j, (j < k)%nat -> taken st (candidate random j)) ->
  free st (candidate random k) ->
  url_map_id_seq st < INT4_MAX ->
  (k < fuel)%nat ->
  create_short_url fuel url_data (alone st random now)
  = (Return (URLResponse.mk (candidate random k) (URLCreate.url url_data) now 0),
     mkWorld (mkStore (rows st ++ [url_map.mk (url_map_id_seq st + 1)
                                              (candidate random k)
                                              (URLCreate.url url_data)
                                              now 0 true])
                      (url_map_id_seq st + 1))
             [] random (6 * S k) now).
Proof.
  intros T Htaken Hfree Hseq K.
  rewrite create_short_url_run, choose_random_path by exact T.
  rewrite (generate_unique_first_free k fuel (alone st random now) 0%nat);
    auto.
  rewrite insert_mapping_run, yield_alone by reflexivity.
  cbn [advance alone db utc others rng drawn set_db Nat.add].
  rewrite insert_url_map_free; auto.
  - apply has_nul_code_from.
  - unfold candidate. rewrite code_from_length. repeat constructor.
Qed.

Lemma create_short_url_alone_others fuel url_data w out w' :
  others w = [] ->
  create_short_url fuel url_data w = (out, w') ->
  others w' = [].
Proof.
  intros Hq H. rewrite create_short_url_run in H.
  destruct (choose_short_url fuel url_data w) as [o w0] eqn:C.
  destruct (choose_short_url_alone _ _ _ _ _ Hq C) as (_ & Hq0 & _ & _).
  destruct o as [code|e|]; try (injection H as _ <-; exact Hq0).
  rewrite insert_mapping_run, yield_alone in H by exact Hq0.
  destruct (insert_url_map _ _ _ _ _ _) as [[e|r] st'];
    injection H as _ <-; exact Hq0.
Qed.

Lemma redirect_quiet_run code w r :
  others w = [] ->
  find (has_short_url code) (rows (db w)) = Some r ->
  url_map.is_active r = true ->
  (forall x, In x (rows (db w)) -> url_map.short_url x = code ->
             url_map.visits x < INT4_MAX) ->
  redirect_to_url code w
  = (Return (mkRedirect (url_map.original_url r) 307),
     set_db (mkStore (map (bump_visits code) (rows (db w)))
                     (url_map_id_seq (db w))) w).
Proof.
  intros Hq F A V.
  rewrite redirect_to_url_run, !(yield_alone w Hq).
  now rewrite F, A, update_visits_below.
Qed.

Lemma candidate_nonempty random k : candidate random k <> "".
Proof. unfold candidate. cbn. discriminate. Qed.

(** X14.  Run alone against a service whose loop finds a free code, the
    test script creates one mapping for its URL, resolves it once and is
    answered 307 with that URL as [Location], and the statistics it then
    prints include its own mapping and its own visit: [total_urls] and
    [total_visits] are each one more than before the run.  The table ends
    as it was plus that one row with [visits = 1]. *)
Theorem test_script_counts_its_visit st random now order_by k fuel :
  (forall j, (j < k)%nat -> taken st (candidate random j)) ->
  free st (candidate random k) ->
  url_map_id_seq st < INT4_MAX ->
  (k < fuel)%nat ->
  let url := "https://www.example.com/example" in
  let r := url_map.mk (url_map_id_seq st + 1) (candidate random k) url now 1
                      true in
  let st' := mkStore (rows st ++ [r]) (url_map_id_seq st + 1) in
  let page := map to_response (offset_limit 0 10 (order_by (rows st'))) in
  testing_API.main fuel order_by (alone st random now)
  = (Return ([testing_API.Banner;
              testing_API.Heading "URL Creation";
              testing_API.StatusCode 200;
              testing_API.ShortURL (candidate random k);
              testing_API.OriginalURL url;
              testing_API.Heading "URL Redirect";
              testing_API.StatusCode 307;
              testing_API.RedirectLocation (Some url);
              testing_API.Heading "URL Stats";
              testing_API.StatusCode 200;
              testing_API.TotalURLs (total_urls_of st + 1);
              testing_API.TotalVisits (total_visits_of st + 1);
              testing_API.FirstURLs (List.length page)]
             ++ map testing_API.url_line page)%list,
     mkWorld st' [] random (6 * S k) now).
Proof.
  intros Htaken Hfree Hseq K url r st' page.
  unfold testing_API.main.
  assert (Hc : testing_API.test_create_url fuel (alone st random now)
    = (Return (Some (candidate random k),
               [testing_API.Heading "URL Creation"; testing_API.StatusCode 200;
                testing_API.ShortURL (candidate random k);
                testing_API.OriginalURL url]),
       mkWorld (mkStore (rows st ++ [url_map.set_visits 0 r])
                        (url_map_id_seq st + 1)) [] random (6 * S k) now)).
  { unfold testing_API.test_create_url.
    now rewrite (create_random_run st random now testing_API.data k fuel). }
  erewrite bind_return by exact Hc. cbn [fst snd].
  set (st0 := mkStore (rows st ++ [url_map.set_visits 0 r])
                      (url_map_id_seq st + 1)).
  assert (Hfresh : ~ In (candidate random k) (map url_map.short_url (rows st))).
  { now apply existsb_has_short_url, find_has_short_url_none. }
  assert (Hr : testing_API.test_redirect (Some (candidate random k))
                 (mkWorld st0 [] random (6 * S k) now)
    = (Return [testing_API.Heading "URL Redirect"; testing_API.StatusCode 307;
               testing_API.RedirectLocation (Some url)],
       mkWorld st' [] random (6 * S k) now)).
  { unfold testing_API.test_redirect.
    assert (T : truthy (Some (candidate random k)) = true).
    { cbn [truthy]. apply negb_true_iff, String.eqb_neq, candidate_nonempty. }
    rewrite T. cbn [negb].
    assert (F : find (has_short_url (candidate random k)) (rows st0)
                = Some (url_map.set_visits 0 r))
      by (apply find_snoc_fresh; [exact Hfresh | reflexivity]).
    assert (B : map (bump_visits (candidate random k)) (rows st0) = rows st').
    { cbn [rows st0 st']. rewrite map_app, bump_fresh by exact Hfresh.
      cbn [map]. unfold bump_visits, has_short_url.
      cbn [url_map.short_url url_map.visits url_map.set_visits r].
      now rewrite String.eqb_refl. }
    rewrite (redirect_quiet_run (candidate random k)
               (mkWorld st0 [] random (6 * S k) now)
               (url_map.set_visits 0 r) eq_refl F eq_refl).
    - cbn [status_code location db set_db]. rewrite B. reflexivity.
    - intros x Hx Hxc. cbn [db rows st0] in Hx.
      apply in_app_or in Hx as [Hx|[<-|[]]].
      + exfalso. apply Hfresh. rewrite <- Hxc. now apply in_map.
      + reflexivity. }
  erewrite bind_return by exact Hr.
  unfold testing_API.test_stats, bind.
  rewrite get_stats_run, !yield_alone
    by (try (unfold INT8_MAX; lia); reflexivity).
  cbn [db URLStats.total_urls URLStats.total_visits URLStats.urls ret].
  rewrite total_visits_of_sum. unfold total_urls_of, select_count.
  cbn [fst st' rows]. rewrite length_app, sum_visits_app, length_map.
  cbn [List.length sum_visits fold_right url_map.visits r].
  rewrite Nat2Z.inj_add. change (Z.of_nat 1) with 1.
  change (1 + 0) with 1.
  unfold ret, page. rewrite ?length_map. reflexivity.
Qed.

Lemma test_script_counts_its_visit_witness :
  fst (testing_API.main 1 stable_desc (alone empty_store zeros 2000))
  = Return [testing_API.Banner;
            testing_API.Heading "URL Creation";
            testing_API.StatusCode 200;
            testing_API.ShortURL "aaaaaa";
            testing_API.OriginalURL "https://www.example.com/example";
            testing_API.Heading "URL Redirect";
            testing_API.StatusCode 307;
            testing_API.RedirectLocation (Some "https://www.example.com/example");
            testing_API.Heading "URL Stats";
            testing_API.StatusCode 200;
            testing_API.TotalURLs 1;
            testing_API.TotalVisits 1;
            testing_API.FirstURLs 1;
            testing_API.URLLine "aaaaaa" "https://www.example.com/example" 1].
Proof.
  refine (f_equal fst (test_script_counts_its_visit empty_store zeros 2000
                         stable_desc 0 1 _ eq_refl eq_refl _)).
  - intros j Hj. lia.
  - lia.
Defined.

(** X15.  When the creation is not answered with 200, the script sends no
    resolution at all: it prints that there is no short URL to test, goes
    on to the statistics, and leaves the world as the refused creation
    left it. *)
Theorem test_script_skips_redirect st random now order_by fuel e w1 :
  create_short_url fuel testing_API.data (alone st random now) = (Raise e, w1) ->
  testing_API.main fuel order_by (alone st random now)
  = (Return ([testing_API.Banner;
              testing_API.Heading "URL Creation";
              testing_API.StatusCode (testing_API.status_of e);
              testing_API.Error e;
              testing_API.Heading "URL Redirect";
              testing_API.NoShortURL;
              testing_API.Heading "URL Stats";
              testing_API.StatusCode 200;
              testing_API.TotalURLs (total_urls_of (db w1));
              testing_API.TotalVisits (total_visits_of (db w1));
              testing_API.FirstURLs
                (List.length (offset_limit 0 10 (order_by (rows (db w1)))))]
             ++ map testing_API.url_line
                    (map to_response
                         (offset_limit 0 10 (order_by (rows (db w1))))))%list,
     w1).
Proof.
  intros H.
  assert (Hq : others w1 = [])
    by (eapply create_short_url_alone_others; [|exact H]; reflexivity).
  unfold testing_API.main, bind at 1, testing_API.test_create_url.
  rewrite H. cbn [fst snd].
  unfold bind at 1. cbn [testing_API.test_redirect truthy negb ret].
  unfold testing_API.test_stats, bind.
  rewrite get_stats_run, !(yield_alone w1 Hq) by (unfold INT8_MAX; lia).
  cbn [URLStats.total_urls URLStats.total_visits URLStats.urls].
  rewrite total_visits_of_sum, length_map. reflexivity.
Qed.

Lemma test_script_skips_redirect_witness :
  fst (testing_API.main 1 stable_desc (alone exhausted_store zeros 2000))
  = Return [testing_API.Banner;
            testing_API.Heading "URL Creation";
            testing_API.StatusCode 500;
            testing_API.Error (PostgresError SequenceGeneratorLimitExceededError);
            testing_API.Heading "URL Redirect";
            testing_API.NoShortURL;
            testing_API.Heading "URL Stats";
            testing_API.StatusCode 200;
            testing_API.TotalURLs 0;
            testing_API.TotalVisits 0;
            testing_API.FirstURLs 0].
Proof.
  exact (f_equal fst (test_script_skips_redirect exhausted_store zeros 2000
                        stable_desc 1
                        (PostgresError SequenceGeneratorLimitExceededError)
                        (mkWorld exhausted_store [] zeros 6 2000) eq_refl)).
Defined.
